(** * GestureController: the stabilised hand-gesture signal

    A shallow embedding of [runDetection], the detection loop of
    [src/components/GestureController.tsx], and the properties of its
    throttle, its two moving-average smoothers, its hysteresis gate and its
    loss debouncer.

    The loop is written once, over an interface [JsNumber] of the arithmetic
    the source performs on JavaScript numbers, and interpreted by
    [float_number]: IEEE-754 binary64, the numbers the program runs on.
    Everything about the state machine is proved for every instance of the
    interface; what depends on the arithmetic is proved on doubles, from the
    specification of their operations ([SpecFloat]), the real numbers serving
    only to measure rounding errors. *)

From Stdlib Require Import List ZArith Bool Arith Lia.
From Stdlib Require Import Floats.
From Stdlib Require Import Reals Lra.
Import ListNotations.

Set Implicit Arguments.

(** ** Numbers *)

(** The operations [runDetection] applies to values of type [number]. *)
Class JsNumber (num : Type) : Type := {
  (** an integer literal, or the [length] of an array *)
  of_Z : Z -> num;
  (** the literals [1.6] and [1.2] *)
  lit_1_6 : num;
  lit_1_2 : num;
  add : num -> num -> num;
  sub : num -> num -> num;
  mul : num -> num -> num;
  div : num -> num -> num;
  (** [Math.sqrt(x)] *)
  sqrt : num -> num;
  (** [Math.pow(x, 2)] *)
  square : num -> num;
  (** [a < b]; the source's [a > b] is [ltb b a] *)
  ltb : num -> num -> bool;
  (** ToBoolean, as applied by [||]: false on [0], [-0] and [NaN] *)
  truthy : num -> bool
}.

Declare Scope js_scope.
Delimit Scope js_scope with js.
Infix "+!" := add (at level 50, left associativity) : js_scope.
Infix "-!" := sub (at level 50, left associativity) : js_scope.
Infix "*!" := mul (at level 40, left associativity) : js_scope.
Infix "/!" := div (at level 40, left associativity) : js_scope.
Infix "<!?" := ltb (at level 70, no associativity) : js_scope.
Notation "a >!? b" := (ltb b a) (at level 70, no associativity) : js_scope.
Open Scope js_scope.

(** [a || b] on numbers. *)
Definition or_else {num} `{JsNumber num} (a b : num) : num :=
  if truthy a then a else b.

(** IEEE-754 binary64.  Integer literals and lengths are exact (they are far
    below 2^53); the decimal literals are the doubles nearest to them, written
    in hexadecimal; [Math.pow(x, 2)] is the correctly rounded square. *)
#[export] Instance float_number : JsNumber float := {|
  of_Z := fun z =>
    match z with
    | Zneg p => PrimFloat.opp (PrimFloat.of_uint63 (Uint63.of_Z (Zpos p)))
    | _ => PrimFloat.of_uint63 (Uint63.of_Z z)
    end;
  lit_1_6 := 0x1.999999999999ap+0%float;
  lit_1_2 := 0x1.3333333333333p+0%float;
  add := PrimFloat.add;
  sub := PrimFloat.sub;
  mul := PrimFloat.mul;
  div := PrimFloat.div;
  sqrt := PrimFloat.sqrt;
  square := fun x => PrimFloat.mul x x;
  ltb := PrimFloat.ltb;
  truthy := fun x => negb (PrimFloat.eqb x PrimFloat.zero || PrimFloat.is_nan x)
|}.

(** ** The component's state, its inputs and what it calls *)

Section Controller.

Context {num : Type} `{JsNumber num}.

(** [{x, y}], an entry of [posHistory] and the [position] of a signal. *)
Record Point : Type := { x : num; y : num }.

(** The argument of [onGesture]. *)
Record GestureSignal : Type := {
  isOpen : bool;
  position : Point;
  isDetected : bool
}.

(** The refs of the component ([useRef]), lines 22-28.  [lastDetectionTime]
    holds a [Date.now()] value, an integer count of milliseconds;
    [missedFrames] is a counter that only takes the values 0, 1, 2, ...
    (a double holds both exactly, up to 2^53). *)
Record Store : Type := {
  lastDetectionTime : Z;
  ratioHistory : list num;
  posHistory : list Point;
  isCurrentlyOpen : bool;
  missedFrames : nat
}.

Definition initial : Store := {|
  lastDetectionTime := 0;
  ratioHistory := [];
  posHistory := [];
  isCurrentlyOpen := false;
  missedFrames := 0
|}.

Definition set_lastDetectionTime (t : Z) (s : Store) : Store :=
  {| lastDetectionTime := t; ratioHistory := ratioHistory s;
     posHistory := posHistory s; isCurrentlyOpen := isCurrentlyOpen s;
     missedFrames := missedFrames s |}.

Definition set_ratioHistory (h : list num) (s : Store) : Store :=
  {| lastDetectionTime := lastDetectionTime s; ratioHistory := h;
     posHistory := posHistory s; isCurrentlyOpen := isCurrentlyOpen s;
     missedFrames := missedFrames s |}.

Definition set_posHistory (h : list Point) (s : Store) : Store :=
  {| lastDetectionTime := lastDetectionTime s; ratioHistory := ratioHistory s;
     posHistory := h; isCurrentlyOpen := isCurrentlyOpen s;
     missedFrames := missedFrames s |}.

Definition set_isCurrentlyOpen (b : bool) (s : Store) : Store :=
  {| lastDetectionTime := lastDetectionTime s; ratioHistory := ratioHistory s;
     posHistory := posHistory s; isCurrentlyOpen := b;
     missedFrames := missedFrames s |}.

Definition set_missedFrames (n : nat) (s : Store) : Store :=
  {| lastDetectionTime := lastDetectionTime s; ratioHistory := ratioHistory s;
     posHistory := posHistory s; isCurrentlyOpen := isCurrentlyOpen s;
     missedFrames := n |}.

(** A landmark: of its coordinates the loop reads [p[0]] and [p[1]] only. *)
Record Landmark : Type := { l0 : num; l1 : num }.

(** A hand of [predictions]. *)
Record Prediction : Type := { landmarks : list Landmark }.

(** How the promise of [model.estimateHands(video)] settles. *)
Inductive Estimate : Type :=
| Rejected
| Resolved (predictions : list Prediction).

(** What one pass through the [try] block reads from outside:
    the video's dimensions and the estimate. *)
Record Tick : Type := {
  videoWidth : num;
  videoHeight : num;
  estimate : Estimate
}.

(** What one call of [runDetection] reads from outside.  [ready] is the guard
    of line 48 (model loaded, video element present, [readyState === 4]);
    [now] is [Date.now()]. *)
Record Frame : Type := {
  ready : bool;
  now : Z;
  tick : Tick
}.

(** The calls the loop makes to its collaborators.  [onGesture] is a
    required prop of the component, so the guards [if (onGestureRef.current)]
    of lines 125 and 139 pass.  [setDebugState] only feeds the on-screen
    label and is left out. *)
Inductive Call : Type :=
| RequestAnimationFrame
| EstimateHands
| OnGesture (g : GestureSignal).

(** A call together with the refs as they are when it is made. *)
Record Event : Type := { call : Call; seen : Store }.

(** ** Effects: the refs, the calls, and exceptions *)

Inductive Completion (A : Type) : Type :=
| Normal (a : A)
| Throw.
Arguments Throw {A}.

Definition Eff (A : Type) : Type := Store -> Completion A * Store * list Event.

Definition ret {A} (a : A) : Eff A := fun s => (Normal a, s, []).

Definition bind {A B} (m : Eff A) (k : A -> Eff B) : Eff B :=
  fun s =>
    match m s with
    | (Normal a, s1, t1) =>
        match k a s1 with
        | (c, s2, t2) => (c, s2, t1 ++ t2)
        end
    | (Throw, s1, t1) => (Throw, s1, t1)
    end.

Definition throw {A} : Eff A := fun s => (Throw, s, []).

Definition get : Eff Store := fun s => (Normal s, s, []).

Definition modify (f : Store -> Store) : Eff unit := fun s => (Normal tt, f s, []).

Definition perform (c : Call) : Eff unit :=
  fun s => (Normal tt, s, [{| call := c; seen := s |}]).

(** [try { m } catch (err) { }] *)
Definition try_catch (m : Eff unit) : Eff unit :=
  fun s =>
    match m s with
    | (_, s1, t1) => (Normal tt, s1, t1)
    end.

(** Reading [a[i][0]]: a [TypeError] when [a[i]] is [undefined]. *)
Definition index {A} (a : list A) (i : nat) : Eff A :=
  match nth_error a i with
  | Some v => ret v
  | None => throw
  end.

Definition of_option {A} (o : option A) : Eff A :=
  match o with
  | Some v => ret v
  | None => throw
  end.

Local Notation "v <- m ;; k" := (bind m (fun v => k))
  (at level 61, m at next level, right associativity).
Local Notation "m ;; k" := (bind m (fun _ => k))
  (at level 61, right associativity).

(** ** The computations of one detection *)

(** Lines 72-73. *)
Definition rawPosition (w h : num) (wrist : Landmark) : Point :=
  {| x := of_Z (-1) *! ((l0 wrist /! w) *! of_Z 2 -! of_Z 1);
     y := of_Z (-1) *! ((l1 wrist /! h) *! of_Z 2 -! of_Z 1) |}.

(** [a.push(v); if (a.length > cap) a.shift();] (lines 75-76 and 108-109). *)
Definition push_shift {A} (cap : nat) (a : list A) (v : A) : list A :=
  let a' := a ++ [v] in
  if (cap <? length a')%nat then tl a' else a'.

(** Lines 78-81: the sum by [reduce] from [{x:0, y:0}], over [length]. *)
Definition avgPos (a : list Point) : Point :=
  fold_left (fun acc curr => {| x := x acc +! x curr; y := y acc +! y curr |})
            a {| x := of_Z 0; y := of_Z 0 |}.

Definition smoothedPosition (a : list Point) : Point :=
  let count := of_Z (Z.of_nat (length a)) in
  {| x := x (avgPos a) /! count; y := y (avgPos a) /! count |}.

Definition tips : list nat := [8; 12; 16; 20]%nat.
Definition bases : list nat := [5; 9; 13; 17]%nat.

(** Lines 89-91. *)
Definition getDist (p1 p2 : Landmark) : num :=
  sqrt (square (l0 p1 -! l0 p2) +! square (l1 p1 -! l1 p2)).

(** Lines 93-99: [(totalBaseDist, totalTipDist)], or [None] when a landmark
    the loop reads is missing (the read throws; no ref has changed since the
    loop began). *)
Definition totalDists (wrist : Landmark) (lms : list Landmark) : option (num * num) :=
  fold_left
    (fun acc i =>
       match acc with
       | None => None
       | Some (totalBaseDist, totalTipDist) =>
           match nth_error lms (nth i bases 0%nat) with
           | None => None
           | Some b =>
               match nth_error lms (nth i tips 0%nat) with
               | None => None
               | Some t =>
                   Some (totalBaseDist +! getDist wrist b,
                         totalTipDist +! getDist wrist t)
               end
           end
       end)
    (seq 0 4) (Some (of_Z 0, of_Z 0)).

(** Line 105: the denominator [avgBaseDist || 1]. *)
Definition denominator (avgBaseDist : num) : num := or_else avgBaseDist (of_Z 1).

(** Lines 101-105. *)
Definition ratioOf (totals : num * num) : num :=
  let avgBaseDist := fst totals /! of_Z 4 in
  let avgTipDist := snd totals /! of_Z 4 in
  avgTipDist /! denominator avgBaseDist.

Definition rawRatio (wrist : Landmark) (lms : list Landmark) : option num :=
  option_map ratioOf (totalDists wrist lms).

(** Line 110. *)
Definition smoothedRatio (a : list num) : num :=
  fold_left add a (of_Z 0) /! of_Z (Z.of_nat (length a)).

(** Lines 113-117. *)
Definition hysteresis (open : bool) (smoothed : num) : bool :=
  if negb open && (smoothed >!? lit_1_6) then true
  else if open && (smoothed <!? lit_1_2) then false
  else open.

(** Line 140. *)
Definition lostSignal : GestureSignal :=
  {| isOpen := false;
     position := {| x := of_Z 0; y := of_Z 0 |};
     isDetected := false |}.

(** ** The loop *)

(** Lines 64-127: a hand was found. *)
Definition onHand (w h : num) (hand : Prediction) : Eff unit :=
  modify (set_missedFrames 0) ;;
  wrist <- index (landmarks hand) 0 ;;
  modify (fun s => set_posHistory (push_shift 8 (posHistory s) (rawPosition w h wrist)) s) ;;
  s <- get ;;
  let pos := smoothedPosition (posHistory s) in
  r <- of_option (rawRatio wrist (landmarks hand)) ;;
  modify (fun s => set_ratioHistory (push_shift 5 (ratioHistory s) r) s) ;;
  s <- get ;;
  let smoothed := smoothedRatio (ratioHistory s) in
  modify (fun s => set_isCurrentlyOpen (hysteresis (isCurrentlyOpen s) smoothed) s) ;;
  s <- get ;;
  perform (OnGesture {| isOpen := isCurrentlyOpen s; position := pos; isDetected := true |}).

(** Lines 129-142: no hand. *)
Definition onMiss : Eff unit :=
  modify (fun s => set_missedFrames (S (missedFrames s)) s) ;;
  s <- get ;;
  if (5 <? missedFrames s)%nat then
    modify (set_isCurrentlyOpen false) ;;
    modify (set_ratioHistory []) ;;
    modify (set_posHistory []) ;;
    perform (OnGesture lostSignal)
  else ret tt.

(** Line 61. *)
Definition estimateHands (e : Estimate) : Eff (list Prediction) :=
  perform EstimateHands ;;
  match e with
  | Rejected => throw
  | Resolved predictions => ret predictions
  end.

(** Lines 60-146: the [try] block with its empty [catch]. *)
Definition processTick (t : Tick) : Eff unit :=
  try_catch
    (predictions <- estimateHands (estimate t) ;;
     match predictions with
     | hand :: _ => onHand (videoWidth t) (videoHeight t) hand
     | [] => onMiss
     end).

(** Lines 47-150.  The early [return] of line 54 is the first branch. *)
Definition runDetection (f : Frame) : Eff unit :=
  if ready f then
    s <- get ;;
    if (now f - lastDetectionTime s <? 60)%Z then
      perform RequestAnimationFrame
    else
      modify (set_lastDetectionTime (now f)) ;;
      processTick (tick f) ;;
      perform RequestAnimationFrame
  else
    perform RequestAnimationFrame.

(** The refs after an effect, and the calls it made. *)
Definition exec {A} (m : Eff A) (s : Store) : Store * list Event :=
  match m s with
  | (_, s', t) => (s', t)
  end.

(** A sequence of passes through the [try] block. *)
Fixpoint run_ticks (ts : list Tick) (s : Store) : Store * list Event :=
  match ts with
  | [] => (s, [])
  | t :: ts' =>
      let '(s1, t1) := exec (processTick t) s in
      let '(s2, t2) := run_ticks ts' s1 in
      (s2, t1 ++ t2)
  end.

(** A sequence of host frame notifications.  Calls of [runDetection] do not
    overlap: the next one is requested on line 149, once the [try] block is
    over. *)
Fixpoint run_frames (fs : list Frame) (s : Store) : Store * list Event :=
  match fs with
  | [] => (s, [])
  | f :: fs' =>
      let '(s1, t1) := exec (runDetection f) s in
      let '(s2, t2) := run_frames fs' s1 in
      (s2, t1 ++ t2)
  end.

(** The tick on which the detector reports no hand. *)
Definition miss (w h : num) : Tick :=
  {| videoWidth := w; videoHeight := h; estimate := Resolved [] |}.

(** ** Vocabulary of the properties *)

(** The call [c], made when the refs are [s]. *)
Definition at_store (c : Call) (s : Store) : Event := {| call := c; seen := s |}.

(** The refs once a confirmed loss has been handled (lines 130-136). *)
Definition lostStore (s : Store) : Store :=
  set_posHistory [] (set_ratioHistory [] (set_isCurrentlyOpen false
    (set_missedFrames (S (missedFrames s)) s))).

(** The refs once the position of a found hand has been recorded
    (lines 65-76). *)
Definition positionedStore (w h : num) (wrist : Landmark) (s : Store) : Store :=
  set_posHistory (push_shift 8 (posHistory s) (rawPosition w h wrist))
    (set_missedFrames 0 s).

(** The refs once a found hand has been processed to the end
    (lines 65-117). *)
Definition detectedStore (w h : num) (wrist : Landmark) (r : num) (s : Store) : Store :=
  let s2 := set_ratioHistory (push_shift 5 (ratioHistory s) r) (positionedStore w h wrist s) in
  set_isCurrentlyOpen (hysteresis (isCurrentlyOpen s) (smoothedRatio (ratioHistory s2))) s2.

(** The signal sent for a found hand (line 126). *)
Definition detectedSignal (w h : num) (wrist : Landmark) (r : num) (s : Store) : GestureSignal :=
  {| isOpen := isCurrentlyOpen (detectedStore w h wrist r s);
     position := smoothedPosition (posHistory (positionedStore w h wrist s));
     isDetected := true |}.

(** The detector answered, and found no hand. *)
Definition noHand (t : Tick) : Prop := estimate t = Resolved [].

(** The detector answered with at least one hand. *)
Definition hasHand (t : Tick) : Prop :=
  exists hand rest, estimate t = Resolved (hand :: rest).

(** The signals passed to [onGesture], in order. *)
Definition gestures (tr : list Event) : list GestureSignal :=
  flat_map (fun e => match call e with OnGesture g => [g] | _ => [] end) tr.

(** The frames on which the [try] block is entered. *)
Definition passes (f : Frame) (s : Store) : bool :=
  ready f && negb (now f - lastDetectionTime s <? 60)%Z.

(** The times at which [estimateHands] is called: each call is made with
    [lastDetectionTime] already set to the [Date.now()] of its frame. *)
Definition invocations (tr : list Event) : list Z :=
  flat_map (fun e => match call e with
                     | EstimateHands => [lastDetectionTime (seen e)]
                     | _ => []
                     end) tr.

(** [b] is at least 60 ms after [a]. *)
Definition apart (a b : Z) : Prop := (60 <= b - a)%Z.

(** If the call is [onGesture] with [isDetected = false], the refs it is
    made with are reset. *)
Definition resetSeen (e : Event) : Prop :=
  forall g, call e = OnGesture g -> isDetected g = false ->
    g = lostSignal /\
    isCurrentlyOpen (seen e) = false /\
    ratioHistory (seen e) = [] /\
    posHistory (seen e) = [].

(** Both history buffers are within their capacities. *)
Definition bounded (s : Store) : Prop :=
  (length (posHistory s) <= 8)%nat /\ (length (ratioHistory s) <= 5)%nat.

(** The states the component can be in: those a sequence of notifications
    leads to from the initial refs. *)
Definition reachable (s : Store) : Prop :=
  exists fs, s = fst (run_frames fs initial).

(** Neither above 1.6 nor below 1.2, by the comparisons of lines 113 and
    115: the interval [[1.2, 1.6]]. *)
Definition inDeadZone (r : num) : Prop :=
  (r >!? lit_1_6) = false /\ (r <!? lit_1_2) = false.

(** The raw position and the raw ratio a tick feeds to the smoothers, when
    it carries a hand whose landmarks are all there. *)
Definition observation (t : Tick) : option (Point * num) :=
  match estimate t with
  | Resolved (hand :: _) =>
      match landmarks hand with
      | wrist :: _ =>
          option_map (fun r => (rawPosition (videoWidth t) (videoHeight t) wrist, r))
                     (rawRatio wrist (landmarks hand))
      | [] => None
      end
  | _ => None
  end.

(** The smoothed ratio a tick presents to the gate: that of the ratio
    history once the tick's raw ratio is in it.  Ticks without a complete
    hand present none. *)
Definition gateInput (t : Tick) (s : Store) : option num :=
  option_map (fun o => smoothedRatio (push_shift 5 (ratioHistory s) (snd o)))
             (observation t).

(** The smoothed ratios the ticks of a run present to the gate, in order. *)
Fixpoint gateInputs (ts : list Tick) (s : Store) : list num :=
  match ts with
  | [] => []
  | t :: ts' =>
      match gateInput t s with
      | Some r => [r]
      | None => []
      end ++ gateInputs ts' (fst (exec (processTick t) s))
  end.

(** The list ends with [k] copies of [c]. *)
Definition endsWith {A} (c : A) (k : nat) (a : list A) : Prop :=
  exists pre, a = pre ++ repeat c k.

(** The tick feeds the raw position [c] to the position smoother. *)
Definition feedsPosition (c : Point) (t : Tick) : Prop :=
  exists r, observation t = Some (c, r).

(** The tick feeds the raw ratio [r] to the ratio smoother. *)
Definition feedsRatio (r : num) (t : Tick) : Prop :=
  exists c, observation t = Some (c, r).

(** *** Vocabulary of the further properties *)

(** The call is [requestAnimationFrame(runDetection)]. *)
Definition isReschedule (e : Event) : bool :=
  match call e with
  | RequestAnimationFrame => true
  | _ => false
  end.

(** The number of calls of [requestAnimationFrame] in a trace. *)
Definition reschedules (tr : list Event) : nat := length (filter isReschedule tr).

(** The tick with [predictions] cut down to [predictions[0]]. *)
Definition firstHandOnly (t : Tick) : Tick :=
  {| videoWidth := videoWidth t;
     videoHeight := videoHeight t;
     estimate := match estimate t with
                 | Resolved (hand :: _) => Resolved [hand]
                 | e => e
                 end |}.

Definition firstHandOnlyFrame (f : Frame) : Frame :=
  {| ready := ready f; now := now f; tick := firstHandOnly (tick f) |}.

(** Two states of the refs that no later tick can tell apart: the same
    buffers and gate, and miss counters that are equal or both past 5. *)
Definition alike (a b : Store) : Prop :=
  posHistory a = posHistory b /\
  ratioHistory a = ratioHistory b /\
  isCurrentlyOpen a = isCurrentlyOpen b /\
  (missedFrames a = missedFrames b \/
   ((5 < missedFrames a)%nat /\ (5 < missedFrames b)%nat)).

(** The last [k] entries of a list (all of it when it is shorter). *)
Definition lastn {A} (k : nat) (l : list A) : list A := skipn (length l - k) l.

(** If the call is [onGesture] with [isDetected = true], the signal is read
    off the refs the call is made with, and both buffers hold a sample. *)
Definition detectedSeen (e : Event) : Prop :=
  forall g, call e = OnGesture g -> isDetected g = true ->
    isOpen g = isCurrentlyOpen (seen e) /\
    position g = smoothedPosition (posHistory (seen e)) /\
    missedFrames (seen e) = 0%nat /\
    posHistory (seen e) <> [] /\
    ratioHistory (seen e) <> [].

(** *** The animation-frame requests of the loop

    [requestAnimationFrame(callback)] registers the callback under a new
    handle and returns the handle; on the next frame the browser takes the
    registered callbacks, unregisters them and runs them;
    [cancelAnimationFrame(handle)] unregisters the callback of that handle if
    it has not run.  The only callback this component ever registers is
    [runDetection]. *)

(** The refs, the handles under which [runDetection] is registered, and the
    next handle the browser will hand out. *)
Record Loop : Type := {
  refs : Store;
  pending : list nat;
  nextHandle : nat
}.

Definition requestAnimationFrame (l : Loop) : nat * Loop :=
  (nextHandle l,
   {| refs := refs l;
      pending := pending l ++ [nextHandle l];
      nextHandle := S (nextHandle l) |}).

Definition cancelAnimationFrame (handle : nat) (l : Loop) : Loop :=
  {| refs := refs l;
     pending := filter (fun h => negb (Nat.eqb h handle)) (pending l);
     nextHandle := nextHandle l |}.

(** [n] requests in a row. *)
Fixpoint requests (n : nat) (l : Loop) : Loop :=
  match n with
  | O => l
  | S n' => requests n' (snd (requestAnimationFrame l))
  end.

(** One registered callback runs: a call of [runDetection], whose calls of
    [requestAnimationFrame] (lines 53 and 149, the handle dropped) register
    it again. *)
Definition runCallback (f : Frame) (l : Loop) : Loop :=
  requests (reschedules (snd (exec (runDetection f) (refs l))))
    {| refs := fst (exec (runDetection f) (refs l));
       pending := pending l;
       nextHandle := nextHandle l |}.

(** A frame of the browser: the callbacks registered so far run, each once. *)
Definition animationFrame (f : Frame) (l : Loop) : Loop :=
  fold_left (fun l' _ => runCallback f l') (pending l)
    {| refs := refs l; pending := []; nextHandle := nextHandle l |}.

Fixpoint animationFrames (fs : list Frame) (l : Loop) : Loop :=
  match fs with
  | [] => l
  | f :: fs' => animationFrames fs' (animationFrame f l)
  end.

(** Lines 152-157, with [model && !loading]: the effect makes the first
    request and keeps its handle as [timer]; what it returns, the cleanup,
    cancels that handle. *)
Definition startLoop (l : Loop) : nat * Loop := requestAnimationFrame l.

(** The component before its effect has run: nothing is registered. *)
Definition mounted (s : Store) (n : nat) : Loop :=
  {| refs := s; pending := []; nextHandle := n |}.

Definition cleanup (timer : nat) (l : Loop) : Loop := cancelAnimationFrame timer l.

(** The promise of [estimateHands] was rejected. *)
Definition isRejected (t : Tick) : bool :=
  match estimate t with
  | Rejected => true
  | Resolved _ => false
  end.

End Controller.

Arguments Point num : clear implicits.
Arguments GestureSignal num : clear implicits.
Arguments Store num : clear implicits.
Arguments Landmark num : clear implicits.
Arguments Prediction num : clear implicits.
Arguments Estimate num : clear implicits.
Arguments Tick num : clear implicits.
Arguments Frame num : clear implicits.
Arguments Call num : clear implicits.
Arguments Event num : clear implicits.
Arguments Loop num : clear implicits.

(** ** Signs of IEEE-754 doubles *)

(** Of sign [+], a zero or [NaN]: not below zero. *)
Definition SFnonneg (f : spec_float) : Prop :=
  match f with
  | S754_infinity s | S754_finite s _ _ => s = false
  | _ => True
  end.

(** Of sign [+] and neither zero nor [NaN]. *)
Definition SFpositive (f : spec_float) : Prop :=
  match f with
  | S754_infinity s | S754_finite s _ _ => s = false
  | _ => False
  end.

Definition nonneg (a : float) : Prop := SFnonneg (Prim2SF a).

Definition strictlyPositive (a : float) : Prop := SFpositive (Prim2SF a).

(** Not a number. *)
Definition isNaN (a : float) : Prop := Prim2SF a = S754_nan.

(** Neither [NaN] nor below zero: a zero, or of sign [+]. *)
Definition SFnumber (f : spec_float) : Prop :=
  match f with
  | S754_nan => False
  | S754_zero _ => True
  | S754_infinity s | S754_finite s _ _ => s = false
  end.

(** A zero or a finite number: neither an infinity nor [NaN]. *)
Definition SFfinite (f : spec_float) : Prop :=
  match f with
  | S754_zero _ | S754_finite _ _ _ => True
  | _ => False
  end.

(** Of sign [sx], and not [NaN]. *)
Definition SFsigned (sx : bool) (f : spec_float) : Prop :=
  match f with
  | S754_nan => False
  | S754_zero s | S754_infinity s | S754_finite s _ _ => s = sx
  end.

Definition number (a : float) : Prop := SFnumber (Prim2SF a).

Definition isFinite (a : float) : Prop := SFfinite (Prim2SF a).

(** A landmark whose two coordinates are finite. *)
Definition finiteLandmark (p : Landmark float) : Prop :=
  isFinite (l0 p) /\ isFinite (l1 p).

(** ** Rounding of IEEE-754 doubles *)

(** The number of low bits of the mantissa [m] that rounding [m * 2^e] to a
    double drops. *)
Definition droppedBits (m e : Z) : Z :=
  Z.max 0 (fexp prec emax (Zdigits2 m + e) - e).

(** [f] is a normal double of sign [s] whose value, counted in units of
    [2^ec], is within [E] of [j * mc]: of [j] times the double of sign [s],
    mantissa [mc] and exponent [ec]. *)
Definition nearMultiple (s : bool) (mc : positive) (ec : Z) (j E : Z) (f : spec_float) : Prop :=
  exists m e,
    f = S754_finite s m e /\ (ec <= e)%Z /\ Z.log2 (Zpos m) = 52%Z /\
    (Z.abs (Zpos m * 2 ^ (e - ec) - j * Zpos mc) <= E)%Z.

(** [f] is a double of sign [s] whose value, counted in units of
    [2^(ec - 4)], is within 256 of [16 * mc]: within [16 * 2^ec] of the double
    of sign [s], mantissa [mc] and exponent [ec]. *)
Definition nearConstant (s : bool) (mc : positive) (ec : Z) (f : spec_float) : Prop :=
  exists m e,
    f = S754_finite s m e /\ (ec - 4 <= e)%Z /\
    (Z.abs (Zpos m * 2 ^ (e - (ec - 4)) - 16 * Zpos mc) <= 256)%Z.

(** The lengths a buffer takes, 1 to 8, as doubles: [n], the mantissa and
    the exponent of the double [n], and the bound [E] on the error, in units
    of [2^ec], of the sum of [n] copies of a double of exponent [ec]. *)
Definition lengthDouble (n : Z) (mn : positive) (en E : Z) : Prop :=
  In (n, mn, en, E)
     [(1, 4503599627370496%positive, -52, 0); (2, 4503599627370496%positive, -51, 8);
      (3, 6755399441055744%positive, -51, 16); (4, 4503599627370496%positive, -50, 24);
      (5, 5629499534213120%positive, -50, 32); (6, 6755399441055744%positive, -50, 40);
      (7, 7881299347898368%positive, -50, 48); (8, 4503599627370496%positive, -49, 64)]%Z.

(** ** The real numbers that doubles stand for *)

(** The value of a finite double; zeros, and by convention infinities and
    [NaN], are sent to 0. *)
Definition SF2R (f : spec_float) : R :=
  match f with
  | S754_finite s m e => (IZR (cond_Zopp s (Zpos m)) * powerRZ 2 e)%R
  | _ => 0%R
  end.

Definition value (a : float) : R := SF2R (Prim2SF a).

(** The floating-point tolerance of the smoothers: [2^-48], sixteen units
    in the last place. *)
Definition tolerance : R := (/ 281474976710656)%R.

(** [a] is a finite double within relative error [tolerance] of [c]. *)
Definition closeTo (a c : float) : Prop :=
  isFinite a /\ (Rabs (value a - value c) <= tolerance * Rabs (value c))%R.

(** A double that is zero, or of magnitude between [2^-1000] and [2^1000]. *)
Definition ordinary (c : float) : Prop :=
  (c =? 0)%float = true \/
  ((0x1p-1000 <=? abs c)%float = true /\ (abs c <=? 0x1p+1000)%float = true).

(** A raw ratio of a clearly open hand: at least 1.7 (the double nearest
    to it), a margin above the opening threshold 1.6. *)
Definition clearlyOpen (r : float) : Prop :=
  (0x1.b333333333333p+0 <=? r)%float = true.

(** A raw ratio of a clearly closed hand: at most 1.1 (the double nearest
    to it), a margin below the closing threshold 1.2. *)
Definition clearlyClosed (r : float) : Prop :=
  (r <=? 0x1.199999999999ap+0)%float = true.

(** ** Inputs on IEEE-754 doubles *)

(** The refs of a component that has just been mounted. *)
Definition fresh : Store float := initial.

(** The landmark at pixel [(a, b)]. *)
Definition lm (a b : float) : Landmark float := {| l0 := a; l1 := b |}.

(** A tick without a hand, on a 640x480 video. *)
Definition no_hand : Tick float := miss 640%float 480%float.

(** A hand of 21 landmarks with its wrist at pixel (8, 240). *)
Definition hand_at_8_240 : Prediction float :=
  {| landmarks := lm 8 240 :: repeat (lm 20 200) 20 |}.

(** A tick with that hand, on a 640x480 video. *)
Definition hand_tick : Tick float :=
  {| videoWidth := 640%float; videoHeight := 480%float;
     estimate := Resolved [hand_at_8_240] |}.

(** The raw position that [hand_tick] feeds to the position smoother. *)
Definition wrist_position : Point float :=
  rawPosition 640%float 480%float (lm 8 240).

(** Hands whose four fingers have their base joints 10 px and their tips
    [tip] px from the wrist: the raw ratio is [tip / 10]. *)
Definition hand_with_tips (tip : float) : Prediction float :=
  {| landmarks :=
       map (fun i => if existsb (Nat.eqb i) tips then lm tip 0
                     else if existsb (Nat.eqb i) bases then lm 10 0
                     else lm 0 0)
           (seq 0 21) |}.

(** A tick with such a hand. *)
Definition tick_with_tips (tip : float) : Tick float :=
  {| videoWidth := 640%float; videoHeight := 480%float;
     estimate := Resolved [hand_with_tips tip] |}.

(** Scenario C: the raw ratios 1.5, 1.3, 1.5, 1.3. *)
Definition scenario_c : list (Tick float) :=
  [tick_with_tips 15; tick_with_tips 13; tick_with_tips 15; tick_with_tips 13].

(** A notification at [time] that finds the video ready. *)
Definition frame_at (time : Z) (t : Tick float) : Frame float :=
  {| ready := true; now := time; tick := t |}.

(** [n] notifications [step] ms apart, each with the same tick. *)
Definition frames_every (step : Z) (n : nat) (t : Tick float) : list (Frame float) :=
  map (fun i => frame_at (1000 + step * Z.of_nat i) t) (seq 0 n).

(** [n] notifications 60 ms apart: none is throttled. *)
Definition frames_of (n : nat) (t : Tick float) : list (Frame float) :=
  frames_every 60 n t.

(** A notification on which the promise of [estimateHands] is rejected. *)
Definition failing_frame : Frame float :=
  frame_at 1000
    {| videoWidth := 640%float; videoHeight := 480%float; estimate := Rejected |}.

(** The refs right after a detection at time 1000, and notifications
    16 ms and 64 ms later. *)
Definition just_detected : Store float := set_lastDetectionTime 1000 fresh.

Definition early_frame : Frame float := frame_at 1016 hand_tick.

Definition due_frame : Frame float := frame_at 1064 hand_tick.

(** The state after nine observations: both buffers are full. *)
Definition after_nine_hands : Store float :=
  fst (run_frames (frames_of 9 hand_tick) initial).

(** The call of [onGesture] made on the 6th of six misses 60 ms apart. *)
Definition loss_event : Event float :=
  {| call := OnGesture lostSignal;
     seen := {| lastDetectionTime := 1300; ratioHistory := []; posHistory := [];
                isCurrentlyOpen := false; missedFrames := 6 |} |}.



(** A notification that finds the video not ready. *)
Definition unready_frame : Frame float :=
  {| ready := false; now := 5000; tick := hand_tick |}.

(** The raw position and the raw ratio that [hand_tick] feeds. *)
Definition hand_observation : Point float * float := (wrist_position, 1%float).

(** The call of [onGesture] made on the first notification, which brings
    [hand_tick]. *)
Definition first_signal_event : Event float :=
  Eval vm_compute in
    nth 1 (snd (run_frames (frames_of 1 hand_tick) initial))
        {| call := EstimateHands; seen := initial |}.

(** Its signal. *)
Definition first_signal : GestureSignal float :=
  Eval vm_compute in
    match call first_signal_event with
    | OnGesture g => g
    | _ => lostSignal
    end.

(** A hand whose fingertips have no position, and a tick with it. *)
Definition nan_tick : Tick float := tick_with_tips PrimFloat.nan.

(** A hand of 21 landmarks whose wrist is at the origin and whose other
    landmarks are at [(2^700, 2^700)]: finite coordinates whose squares
    overflow. *)
Definition far_hand : Prediction float :=
  {| landmarks := lm 0 0 :: repeat (lm 0x1p+700 0x1p+700) 20 |}.



(** * Properties *)

Section Theory.

Context {num : Type} `{JsNumber num}.

(** ** One pass through the [try] block, case by case *)

Lemma processTick_rejected (t : Tick num) (s : Store num) :
  estimate t = Rejected ->
  exec (processTick t) s = (s, [at_store EstimateHands s]).
Proof.
  intros E. unfold exec, processTick, try_catch, bind, estimateHands, perform, throw.
  rewrite E. reflexivity.
Qed.

Lemma processTick_miss (t : Tick num) (s : Store num) :
  estimate t = Resolved [] ->
  exec (processTick t) s =
    if (5 <? S (missedFrames s))%nat
    then (lostStore s,
          [at_store EstimateHands s; at_store (OnGesture lostSignal) (lostStore s)])
    else (set_missedFrames (S (missedFrames s)) s, [at_store EstimateHands s]).
Proof.
  intros E. unfold exec, processTick, try_catch, estimateHands. rewrite E.
  unfold onMiss, bind, perform, ret, modify, get. cbn -[Nat.ltb].
  destruct (5 <? S (missedFrames s))%nat; reflexivity.
Qed.

Lemma processTick_hand (t : Tick num) (hand : Prediction num) (rest : list (Prediction num)) (s : Store num) :
  estimate t = Resolved (hand :: rest) ->
  exec (processTick t) s =
    match landmarks hand with
    | [] => (set_missedFrames 0 s, [at_store EstimateHands s])
    | wrist :: _ =>
        match rawRatio wrist (landmarks hand) with
        | None =>
            (positionedStore (videoWidth t) (videoHeight t) wrist s,
             [at_store EstimateHands s])
        | Some r =>
            (detectedStore (videoWidth t) (videoHeight t) wrist r s,
             [at_store EstimateHands s;
              at_store (OnGesture (detectedSignal (videoWidth t) (videoHeight t) wrist r s))
                       (detectedStore (videoWidth t) (videoHeight t) wrist r s)])
        end
    end.
Proof.
  intros E. unfold exec, processTick, try_catch, estimateHands. rewrite E.
  unfold onHand, index, of_option, bind, perform, ret, modify, get, throw.
  cbv beta iota.
  destruct (landmarks hand) as [|wrist lms] eqn:L.
  - reflexivity.
  - cbn [nth_error]. cbv beta iota.
    destruct (rawRatio wrist (wrist :: lms)) as [r|] eqn:R; reflexivity.
Qed.

(** ** Runs of ticks *)

Lemma gestures_app (a b : list (Event num)) : gestures (a ++ b) = gestures a ++ gestures b.
Proof. apply flat_map_app. Qed.

Lemma run_ticks_cons (t : Tick num) (ts : list (Tick num)) (s : Store num) :
  run_ticks (t :: ts) s =
    (fst (run_ticks ts (fst (exec (processTick t) s))),
     snd (exec (processTick t) s) ++ snd (run_ticks ts (fst (exec (processTick t) s)))).
Proof.
  cbn [run_ticks]. destruct (exec (processTick t) s) as [s1 t1]. cbn [fst snd].
  destruct (run_ticks ts s1) as [s2 t2]. reflexivity.
Qed.

Lemma run_ticks_app (a b : list (Tick num)) (s : Store num) :
  run_ticks (a ++ b) s =
    (fst (run_ticks b (fst (run_ticks a s))),
     snd (run_ticks a s) ++ snd (run_ticks b (fst (run_ticks a s)))).
Proof.
  revert s. induction a as [|t a IH]; intros s.
  - cbn. destruct (run_ticks b s). reflexivity.
  - rewrite <- app_comm_cons, !run_ticks_cons, IH. cbn [fst snd].
    rewrite app_assoc. reflexivity.
Qed.

(** What a run of misses does to the refs and which signals it sends:
    the counter only grows; the buffers and the gate are untouched while the
    counter is at most 5, and cleared by every miss beyond. *)
Lemma run_misses (ts : list (Tick num)) :
  forall s : Store num,
    Forall noHand ts ->
    missedFrames (fst (run_ticks ts s)) = (missedFrames s + length ts)%nat /\
    lastDetectionTime (fst (run_ticks ts s)) = lastDetectionTime s /\
    gestures (snd (run_ticks ts s)) =
      repeat lostSignal (missedFrames s + length ts - 5 - (missedFrames s - 5)) /\
    ((missedFrames s + length ts <= 5)%nat ->
       posHistory (fst (run_ticks ts s)) = posHistory s /\
       ratioHistory (fst (run_ticks ts s)) = ratioHistory s /\
       isCurrentlyOpen (fst (run_ticks ts s)) = isCurrentlyOpen s) /\
    (ts <> [] -> (5 < missedFrames s + length ts)%nat ->
       posHistory (fst (run_ticks ts s)) = [] /\
       ratioHistory (fst (run_ticks ts s)) = [] /\
       isCurrentlyOpen (fst (run_ticks ts s)) = false).
Proof.
  induction ts as [|t ts IH]; intros s F.
  - cbn. repeat split; try lia; try congruence.
    replace (missedFrames s + 0 - 5 - (missedFrames s - 5))%nat with 0%nat by lia.
    reflexivity.
  - inversion F as [|? ? Ht Fts]; subst.
    rewrite run_ticks_cons. cbn [fst snd length].
    rewrite (processTick_miss t s Ht).
    destruct (Nat.ltb_spec 5 (S (missedFrames s))) as [Hgt|Hle]; cbn [fst snd].
    + destruct (IH (lostStore s) Fts) as (Hm & Ht' & Hg & _ & Hclr).
      cbn [lostStore missedFrames set_posHistory set_ratioHistory
           set_isCurrentlyOpen set_missedFrames lastDetectionTime] in Hm, Ht', Hg, Hclr.
      repeat split; try lia; try congruence.
      * rewrite gestures_app, Hg. cbn [gestures flat_map at_store call app].
        replace (missedFrames s + S (length ts) - 5 - (missedFrames s - 5))%nat
          with (S (S (missedFrames s) + length ts - 5 - (S (missedFrames s) - 5)))%nat by lia.
        reflexivity.
      * destruct ts as [|t' ts'].
        -- cbn. reflexivity.
        -- apply Hclr; [discriminate | cbn [length] in *; lia].
      * destruct ts as [|t' ts'].
        -- cbn. reflexivity.
        -- apply Hclr; [discriminate | cbn [length] in *; lia].
      * destruct ts as [|t' ts'].
        -- cbn. reflexivity.
        -- apply Hclr; [discriminate | cbn [length] in *; lia].
    + destruct (IH (set_missedFrames (S (missedFrames s)) s) Fts) as (Hm & Ht' & Hg & Hkeep & Hclr).
      cbn [missedFrames set_missedFrames lastDetectionTime posHistory ratioHistory
           isCurrentlyOpen] in Hm, Ht', Hg, Hkeep, Hclr.
      split; [lia|]. split; [congruence|]. split; [|split].
      * rewrite gestures_app, Hg. cbn [gestures flat_map at_store call app].
        f_equal. lia.
      * intros Hb. apply Hkeep. lia.
      * intros _ Hb. destruct ts as [|t' ts'].
        -- cbn [length] in Hb. lia.
        -- apply Hclr; [discriminate | cbn [length] in *; lia].
Qed.

Lemma store_eq (a b : Store num) :
  lastDetectionTime a = lastDetectionTime b ->
  ratioHistory a = ratioHistory b ->
  posHistory a = posHistory b ->
  isCurrentlyOpen a = isCurrentlyOpen b ->
  missedFrames a = missedFrames b ->
  a = b.
Proof. destruct a, b; cbn; intros; subst; reflexivity. Qed.

(** A found hand is processed without reading the miss counter. *)
Lemma processTick_hand_counter (t : Tick num) (n : nat) (s : Store num) :
  hasHand t ->
  fst (exec (processTick t) (set_missedFrames n s)) = fst (exec (processTick t) s) /\
  gestures (snd (exec (processTick t) (set_missedFrames n s))) =
    gestures (snd (exec (processTick t) s)).
Proof.
  intros (hand & rest & E). rewrite !(processTick_hand t s E).
  rewrite (processTick_hand t (set_missedFrames n s) E).
  destruct (landmarks hand) as [|wrist lms]; [split; reflexivity|].
  destruct (rawRatio wrist (wrist :: lms)); split; reflexivity.
Qed.

(** ** The loss debouncer *)

(** C1 (amended).  In a run of consecutive ticks with no observation, begun
    with the miss counter at 0, the signal [{isOpen: false, position: {0,0},
    isDetected: false}] is not sent on the first five misses and is sent on
    the 6th and on every later miss: a run of [n] misses sends it [n - 5]
    times, and the miss that follows [n] misses sends it exactly when
    [5 <= n]. *)
Theorem loss_signal_on_each_miss_past_five (ts : list (Tick num)) (t : Tick num) (s : Store num) :
  missedFrames s = 0%nat ->
  Forall noHand ts ->
  noHand t ->
  gestures (snd (run_ticks ts s)) = repeat lostSignal (length ts - 5) /\
  gestures (snd (exec (processTick t) (fst (run_ticks ts s)))) =
    if (5 <=? length ts)%nat then [lostSignal] else [].
Proof.
  intros M F Ht.
  destruct (run_misses s F) as (Hm & _ & Hg & _).
  rewrite M in Hm, Hg. cbn [Nat.add Nat.sub] in Hm, Hg.
  split.
  - rewrite Hg. f_equal. lia.
  - rewrite (processTick_miss t _ Ht), Hm.
    destruct (Nat.ltb_spec 5 (S (length ts))); destruct (Nat.leb_spec 5 (length ts));
      try lia; reflexivity.
Qed.

(** C3.  From a state with the miss counter at 0: up to 5 consecutive
    misses (so, exactly 5) leave both history buffers and the gate as they
    were, and a tick with a hand that follows them leaves the refs, and sends
    the signal, it would have without the misses; a run that reaches a 6th
    consecutive miss ends with both buffers empty and the gate closed. *)
Theorem debounce_tolerance (few many : list (Tick num)) (t : Tick num) (s : Store num) :
  missedFrames s = 0%nat ->
  Forall noHand few -> (length few <= 5)%nat ->
  hasHand t ->
  Forall noHand many -> (6 <= length many)%nat ->
  (posHistory (fst (run_ticks few s)) = posHistory s /\
   ratioHistory (fst (run_ticks few s)) = ratioHistory s /\
   isCurrentlyOpen (fst (run_ticks few s)) = isCurrentlyOpen s /\
   fst (run_ticks (few ++ [t]) s) = fst (run_ticks [t] s) /\
   gestures (snd (run_ticks (few ++ [t]) s)) = gestures (snd (run_ticks [t] s))) /\
  (posHistory (fst (run_ticks many s)) = [] /\
   ratioHistory (fst (run_ticks many s)) = [] /\
   isCurrentlyOpen (fst (run_ticks many s)) = false).
Proof.
  intros M Ff Lf Ht Fm Lm. split.
  - destruct (run_misses s Ff) as (Hm & Hl & Hg & Hkeep & _).
    rewrite M in *. cbn [Nat.add Nat.sub] in *.
    destruct (Hkeep Lf) as (Hp & Hr & Ho).
    assert (E : fst (run_ticks few s) = set_missedFrames (length few) s)
      by (apply store_eq; assumption).
    repeat split; try assumption.
    + rewrite run_ticks_app, !run_ticks_cons. cbn [run_ticks fst snd].
      rewrite E. apply (processTick_hand_counter _ _ Ht).
    + rewrite run_ticks_app, !run_ticks_cons. cbn [run_ticks fst snd].
      rewrite gestures_app, Hg, !app_nil_r.
      replace (length few - 5)%nat with 0%nat by lia. cbn [repeat app].
      rewrite E. apply (processTick_hand_counter _ _ Ht).
  - destruct (run_misses s Fm) as (_ & _ & _ & _ & Hclr).
    apply Hclr; [|lia].
    intros ->. cbn in Lm. lia.
Qed.

(** C4 (amended).  A tick with an observation sets the miss counter to 0.
    A miss adds 1 to it, on the tick that declares the loss and on the ticks
    after it as on any other: nothing but an observation resets the counter,
    and over a run of [n] misses it grows by [n]. *)
Theorem miss_counter_reset_only_by_observation (t : Tick num) (misses : list (Tick num)) (s : Store num) :
  hasHand t ->
  Forall noHand misses ->
  missedFrames (fst (exec (processTick t) s)) = 0%nat /\
  missedFrames (fst (run_ticks misses s)) = (missedFrames s + length misses)%nat.
Proof.
  intros (hand & rest & E) F. split.
  - rewrite (processTick_hand t s E).
    destruct (landmarks hand) as [|wrist lms]; [reflexivity|].
    destruct (rawRatio wrist (wrist :: lms)); reflexivity.
  - apply (run_misses s F).
Qed.

(** ** One call of [runDetection], case by case *)

Lemma tick_cases (t : Tick num) : estimate t = Rejected \/ noHand t \/ hasHand t.
Proof.
  unfold noHand, hasHand. destruct (estimate t) as [|[|hand rest]]; eauto.
Qed.

Lemma runDetection_not_ready (f : Frame num) (s : Store num) :
  ready f = false ->
  exec (runDetection f) s = (s, [at_store RequestAnimationFrame s]).
Proof. intros R. unfold runDetection. rewrite R. reflexivity. Qed.

Lemma runDetection_throttled (f : Frame num) (s : Store num) :
  ready f = true ->
  (now f - lastDetectionTime s < 60)%Z ->
  exec (runDetection f) s = (s, [at_store RequestAnimationFrame s]).
Proof.
  intros R T. unfold runDetection, exec, bind, get. rewrite R.
  apply Z.ltb_lt in T. rewrite T. reflexivity.
Qed.

Lemma runDetection_tick (f : Frame num) (s : Store num) :
  ready f = true ->
  (60 <= now f - lastDetectionTime s)%Z ->
  exec (runDetection f) s =
    (fst (exec (processTick (tick f)) (set_lastDetectionTime (now f) s)),
     snd (exec (processTick (tick f)) (set_lastDetectionTime (now f) s)) ++
     [at_store RequestAnimationFrame
        (fst (exec (processTick (tick f)) (set_lastDetectionTime (now f) s)))]).
Proof.
  intros R T. unfold runDetection, bind, get, modify. rewrite R.
  unfold exec at 1. cbv beta iota.
  apply Z.ltb_ge in T. rewrite T.
  unfold exec, processTick, try_catch.
  destruct (bind _ _ _) as [[c s1] t1]. reflexivity.
Qed.

Lemma runDetection_cases (f : Frame num) (s : Store num) :
  (passes f s = false /\
   exec (runDetection f) s = (s, [at_store RequestAnimationFrame s])) \/
  (passes f s = true /\ (60 <= now f - lastDetectionTime s)%Z /\
   exec (runDetection f) s =
    (fst (exec (processTick (tick f)) (set_lastDetectionTime (now f) s)),
     snd (exec (processTick (tick f)) (set_lastDetectionTime (now f) s)) ++
     [at_store RequestAnimationFrame
        (fst (exec (processTick (tick f)) (set_lastDetectionTime (now f) s)))])).
Proof.
  unfold passes. destruct (ready f) eqn:R.
  - destruct (Z.ltb_spec (now f - lastDetectionTime s) 60) as [T|T].
    + left. split; [reflexivity | apply runDetection_throttled; assumption].
    + right. split; [reflexivity|]. split; [assumption|].
      apply runDetection_tick; assumption.
  - left. split; [reflexivity | apply runDetection_not_ready; assumption].
Qed.

Lemma run_frames_cons (f : Frame num) (fs : list (Frame num)) (s : Store num) :
  run_frames (f :: fs) s =
    (fst (run_frames fs (fst (exec (runDetection f) s))),
     snd (exec (runDetection f) s) ++ snd (run_frames fs (fst (exec (runDetection f) s)))).
Proof.
  cbn [run_frames]. destruct (exec (runDetection f) s) as [s1 t1]. cbn [fst snd].
  destruct (run_frames fs s1) as [s2 t2]. reflexivity.
Qed.

(** The [try] block never writes [lastDetectionTime]. *)
Lemma processTick_lastDetectionTime (t : Tick num) (s : Store num) :
  lastDetectionTime (fst (exec (processTick t) s)) = lastDetectionTime s.
Proof.
  destruct (tick_cases t) as [E|[E|(hand & rest & E)]].
  - rewrite (processTick_rejected t s E). reflexivity.
  - rewrite (processTick_miss t s E). destruct (5 <? S (missedFrames s))%nat; reflexivity.
  - rewrite (processTick_hand t s E).
    destruct (landmarks hand) as [|wrist lms]; [reflexivity|].
    destruct (rawRatio wrist (wrist :: lms)); reflexivity.
Qed.

(** Every pass through the [try] block starts with the one call of
    [estimateHands]; what follows are calls of [onGesture] only. *)
Lemma processTick_trace (t : Tick num) (s : Store num) :
  exists tr,
    snd (exec (processTick t) s) = at_store EstimateHands s :: tr /\
    Forall (fun e : Event num => exists g, call e = OnGesture g) tr.
Proof.
  assert (G : forall g s', Forall (fun e : Event num => exists g, call e = OnGesture g)
                                  [at_store (OnGesture g) s']).
  { intros g s'. constructor; [exists g; reflexivity | constructor]. }
  destruct (tick_cases t) as [E|[E|(hand & rest & E)]].
  - rewrite (processTick_rejected t s E). eexists. split; [reflexivity | constructor].
  - rewrite (processTick_miss t s E). destruct (5 <? S (missedFrames s))%nat.
    + eexists. split; [reflexivity | apply G].
    + eexists. split; [reflexivity | constructor].
  - rewrite (processTick_hand t s E).
    destruct (landmarks hand) as [|wrist lms].
    + eexists. split; [reflexivity | constructor].
    + destruct (rawRatio wrist (wrist :: lms)).
      * eexists. split; [reflexivity | apply G].
      * eexists. split; [reflexivity | constructor].
Qed.

(** ** Failure of the collaborator *)

(** The [try] block always completes normally: whatever is thrown inside
    it is caught. *)
Lemma processTick_completes (t : Tick num) (s : Store num) :
  fst (fst (processTick t s)) = Normal tt.
Proof.
  unfold processTick, try_catch.
  destruct (bind _ _ s) as [[c s1] t1]. reflexivity.
Qed.

(** So does every call of [runDetection]. *)
Lemma runDetection_completes (f : Frame num) (s : Store num) :
  fst (fst (runDetection f s)) = Normal tt.
Proof.
  unfold runDetection. destruct (ready f); [|reflexivity].
  unfold bind at 1, get. cbv beta iota.
  destruct (now f - lastDetectionTime s <? 60)%Z; [reflexivity|].
  unfold bind at 1, modify. cbv beta iota.
  unfold bind, perform.
  generalize (processTick_completes (tick f) (set_lastDetectionTime (now f) s)).
  destruct (processTick (tick f) (set_lastDetectionTime (now f) s)) as [[c s1] t1].
  cbn [fst]. intros ->. reflexivity.
Qed.

(** C5.  When the promise of [estimateHands] is rejected on a frame, the
    exception the call raises is absorbed by the empty [catch]: the [try]
    block and the call of [runDetection] complete normally, and the call does
    what it does on any frame that brings nothing, that is, if the frame is
    served it calls [estimateHands] and then requests the next frame, and
    otherwise it only requests the next frame.  The tick changes nothing: the
    miss counter, both history buffers and the gate are as they were and no
    call of [onGesture] is made. *)
Theorem estimate_failure_absorbed (f : Frame num) (s : Store num) :
  estimate (tick f) = Rejected ->
  fst (fst (estimateHands (estimate (tick f)) s)) = Throw _ /\
  fst (fst (processTick (tick f) s)) = Normal tt /\
  fst (fst (runDetection f s)) = Normal tt /\
  snd (exec (runDetection f) s) =
    (if passes f s
     then [at_store EstimateHands (set_lastDetectionTime (now f) s);
           at_store RequestAnimationFrame (set_lastDetectionTime (now f) s)]
     else [at_store RequestAnimationFrame s]) /\
  missedFrames (fst (exec (runDetection f) s)) = missedFrames s /\
  posHistory (fst (exec (runDetection f) s)) = posHistory s /\
  ratioHistory (fst (exec (runDetection f) s)) = ratioHistory s /\
  isCurrentlyOpen (fst (exec (runDetection f) s)) = isCurrentlyOpen s /\
  gestures (snd (exec (runDetection f) s)) = [].
Proof.
  intros E.
  split; [rewrite E; reflexivity|].
  split; [apply processTick_completes|].
  split; [apply runDetection_completes|].
  destruct (runDetection_cases f s) as [(P & ->)|(P & _ & ->)]; rewrite P.
  - repeat split; reflexivity.
  - rewrite (processTick_rejected (tick f) _ E). repeat split; reflexivity.
Qed.

(** ** The throttle *)

Lemma invocations_app (a b : list (Event num)) :
  invocations (a ++ b) = invocations a ++ invocations b.
Proof. apply flat_map_app. Qed.

Lemma invocations_gestures (tr : list (Event num)) :
  Forall (fun e : Event num => exists g, call e = OnGesture g) tr -> invocations tr = [].
Proof.
  induction 1 as [|e tr (g & Hg) _ IH]; [reflexivity|].
  cbn [invocations flat_map]. rewrite Hg. exact IH.
Qed.

Lemma invocations_processTick (t : Tick num) (s : Store num) :
  invocations (snd (exec (processTick t) s)) = [lastDetectionTime s].
Proof.
  destruct (processTick_trace t s) as (tr & -> & F).
  cbn [invocations flat_map at_store call seen app].
  change (flat_map _ tr) with (invocations tr).
  rewrite (invocations_gestures F). reflexivity.
Qed.

Lemma invocations_runDetection (f : Frame num) (s : Store num) :
  invocations (snd (exec (runDetection f) s)) = if passes f s then [now f] else [].
Proof.
  destruct (runDetection_cases f s) as [(-> & ->)|(-> & _ & ->)].
  - reflexivity.
  - cbn [fst snd]. rewrite invocations_app, invocations_processTick. reflexivity.
Qed.

Lemma lastDetectionTime_runDetection (f : Frame num) (s : Store num) :
  lastDetectionTime (fst (exec (runDetection f) s)) =
    if passes f s then now f else lastDetectionTime s.
Proof.
  destruct (runDetection_cases f s) as [(-> & ->)|(-> & _ & ->)].
  - reflexivity.
  - cbn [fst]. rewrite processTick_lastDetectionTime. reflexivity.
Qed.

Lemma invocations_spaced (fs : list (Frame num)) :
  forall s : Store num,
    Forall (apart (lastDetectionTime s)) (invocations (snd (run_frames fs s))) /\
    ForallOrdPairs apart (invocations (snd (run_frames fs s))).
Proof.
  induction fs as [|f fs IH]; intros s.
  - cbn. split; constructor.
  - rewrite run_frames_cons. cbn [snd]. rewrite invocations_app.
    rewrite invocations_runDetection.
    destruct (IH (fst (exec (runDetection f) s))) as (Hall & Hpairs).
    rewrite lastDetectionTime_runDetection in Hall.
    destruct (runDetection_cases f s) as [(P & _)|(P & T & _)]; rewrite P in *.
    + split; assumption.
    + cbn [app]. split.
      * constructor; [exact T|].
        eapply Forall_impl; [|exact Hall]. unfold apart. intros; lia.
      * constructor; assumption.
Qed.

(** C9.  On a notification that finds the video ready less than 60 ms
    after [lastDetectionTime], the call only reschedules itself; on one that
    finds it ready 60 ms after or later, [estimateHands] is called once, with
    [lastDetectionTime] already set to the current time.  Hence over any
    sequence of notifications, from any state, any two calls of
    [estimateHands] are made at times at least 60 ms apart. *)
Theorem throttle (fs : list (Frame num)) (early due : Frame num) (s : Store num) :
  ready early = true -> (now early - lastDetectionTime s < 60)%Z ->
  ready due = true -> (60 <= now due - lastDetectionTime s)%Z ->
  exec (runDetection early) s = (s, [at_store RequestAnimationFrame s]) /\
  (exists tr,
     snd (exec (runDetection due) s) =
       at_store EstimateHands (set_lastDetectionTime (now due) s) :: tr /\
     invocations tr = [] /\
     lastDetectionTime (fst (exec (runDetection due) s)) = now due) /\
  ForallOrdPairs apart (invocations (snd (run_frames fs s))).
Proof.
  intros Re Te Rd Td. split; [|split].
  - apply runDetection_throttled; assumption.
  - rewrite (runDetection_tick due s Rd Td). cbn [fst snd].
    destruct (processTick_trace (tick due) (set_lastDetectionTime (now due) s))
      as (tr & -> & F).
    exists (tr ++ [at_store RequestAnimationFrame
                     (fst (exec (processTick (tick due)) (set_lastDetectionTime (now due) s)))]).
    split; [reflexivity|]. split.
    + rewrite invocations_app, (invocations_gestures F). reflexivity.
    + rewrite processTick_lastDetectionTime. reflexivity.
  - apply invocations_spaced.
Qed.

(** ** The loss signal and the reset *)

Lemma resetSeen_processTick (t : Tick num) (s : Store num) :
  Forall resetSeen (snd (exec (processTick t) s)).
Proof.
  assert (E0 : forall s', resetSeen (at_store EstimateHands s'))
    by (intros s' g Hc; discriminate Hc).
  destruct (tick_cases t) as [E|[E|(hand & rest & E)]].
  - rewrite (processTick_rejected t s E). constructor; [apply E0 | constructor].
  - rewrite (processTick_miss t s E). destruct (5 <? S (missedFrames s))%nat.
    + constructor; [apply E0|]. constructor; [|constructor].
      intros g Hc _. cbn in Hc. injection Hc as <-. repeat split; reflexivity.
    + constructor; [apply E0 | constructor].
  - rewrite (processTick_hand t s E).
    destruct (landmarks hand) as [|wrist lms]; [constructor; [apply E0 | constructor]|].
    destruct (rawRatio wrist (wrist :: lms)); [|constructor; [apply E0 | constructor]].
    constructor; [apply E0|]. constructor; [|constructor].
    intros g Hc Hd. cbn in Hc. injection Hc as <-. discriminate Hd.
Qed.

Lemma resetSeen_runDetection (f : Frame num) (s : Store num) :
  Forall resetSeen (snd (exec (runDetection f) s)).
Proof.
  assert (R0 : forall s', resetSeen (at_store RequestAnimationFrame s'))
    by (intros s' g Hc; discriminate Hc).
  destruct (runDetection_cases f s) as [(_ & ->)|(_ & _ & ->)]; cbn [snd].
  - constructor; [apply R0 | constructor].
  - apply Forall_app. split; [apply resetSeen_processTick|].
    constructor; [apply R0 | constructor].
Qed.

Lemma resetSeen_run_frames (fs : list (Frame num)) :
  forall s : Store num, Forall resetSeen (snd (run_frames fs s)).
Proof.
  induction fs as [|f fs IH]; intros s.
  - constructor.
  - rewrite run_frames_cons. cbn [snd]. apply Forall_app.
    split; [apply resetSeen_runDetection | apply IH].
Qed.

(** C10.  Whenever [onGesture] is called with [isDetected = false], the
    refs it can observe are already reset: the gate is closed and both
    history buffers are empty (and the signal is the loss signal). *)
Theorem loss_signal_after_reset (fs : list (Frame num)) (s : Store num) (e : Event num) (g : GestureSignal num) :
  In e (snd (run_frames fs s)) ->
  call e = OnGesture g ->
  isDetected g = false ->
  g = lostSignal /\
  isCurrentlyOpen (seen e) = false /\
  ratioHistory (seen e) = [] /\
  posHistory (seen e) = [].
Proof.
  intros Hin. apply (proj1 (Forall_forall _ _) (resetSeen_run_frames fs s) e Hin).
Qed.

(** ** The history buffers *)

Lemma push_shift_room {A} (cap : nat) (a : list A) (v : A) :
  (length a < cap)%nat -> push_shift cap a v = a ++ [v].
Proof.
  intros L. unfold push_shift. rewrite length_app. cbn [length].
  destruct (Nat.ltb_spec cap (length a + 1)); [lia | reflexivity].
Qed.

Lemma push_shift_full {A} (cap : nat) (a : list A) (v : A) :
  (0 < cap)%nat -> length a = cap -> push_shift cap a v = tl a ++ [v].
Proof.
  intros C L. unfold push_shift. rewrite length_app. cbn [length].
  destruct (Nat.ltb_spec cap (length a + 1)); [|lia].
  destruct a; [cbn [length] in L; lia | reflexivity].
Qed.

Lemma push_shift_length {A} (cap : nat) (a : list A) (v : A) :
  (length a <= cap)%nat -> (length (push_shift cap a v) <= cap)%nat.
Proof.
  intros L. destruct (Nat.eq_dec (length a) cap) as [E|E].
  - unfold push_shift. rewrite length_app. cbn [length].
    destruct (Nat.ltb_spec cap (length a + 1)); [|lia].
    destruct a; cbn [app tl length] in *; [lia|].
    rewrite length_app. cbn [length]. lia.
  - rewrite push_shift_room by lia. rewrite length_app. cbn [length]. lia.
Qed.

Lemma bounded_processTick (t : Tick num) (s : Store num) :
  bounded s -> bounded (fst (exec (processTick t) s)).
Proof.
  intros (Bp & Br).
  destruct (tick_cases t) as [E|[E|(hand & rest & E)]].
  - rewrite (processTick_rejected t s E). split; assumption.
  - rewrite (processTick_miss t s E). destruct (5 <? S (missedFrames s))%nat.
    + split; cbn; lia.
    + split; assumption.
  - rewrite (processTick_hand t s E).
    destruct (landmarks hand) as [|wrist lms]; [split; assumption|].
    destruct (rawRatio wrist (wrist :: lms)); split; cbn;
      try apply push_shift_length; assumption.
Qed.

Lemma bounded_runDetection (f : Frame num) (s : Store num) :
  bounded s -> bounded (fst (exec (runDetection f) s)).
Proof.
  intros B. destruct (runDetection_cases f s) as [(_ & ->)|(_ & _ & ->)]; cbn [fst].
  - exact B.
  - apply bounded_processTick. exact B.
Qed.

Lemma bounded_run_frames (fs : list (Frame num)) :
  forall s : Store num, bounded s -> bounded (fst (run_frames fs s)).
Proof.
  induction fs as [|f fs IH]; intros s B.
  - exact B.
  - rewrite run_frames_cons. cbn [fst]. apply IH, bounded_runDetection, B.
Qed.

(** C6.  In every reachable state [posHistory] holds at most 8 samples and
    [ratioHistory] at most 5, and so it is again after any call of
    [runDetection]; an insertion into a buffer that is full drops its oldest
    entry, keeps the others in order and puts the new sample last, and an
    insertion into a buffer that is not full drops nothing. *)
Theorem history_buffers_bounded (s : Store num) (f : Frame num) (p : Point num) (r : num) :
  reachable s ->
  bounded s /\
  bounded (fst (exec (runDetection f) s)) /\
  push_shift 8 (posHistory s) p =
    (if (length (posHistory s) =? 8)%nat then tl (posHistory s) else posHistory s) ++ [p] /\
  push_shift 5 (ratioHistory s) r =
    (if (length (ratioHistory s) =? 5)%nat then tl (ratioHistory s) else ratioHistory s) ++ [r].
Proof.
  intros (fs & ->).
  assert (B : bounded (fst (run_frames fs initial))).
  { apply bounded_run_frames. split; cbn; lia. }
  split; [exact B|]. split; [apply bounded_runDetection, B|].
  destruct B as (Bp & Br). split.
  - destruct (Nat.eqb_spec (length (posHistory (fst (run_frames fs initial)))) 8).
    + apply push_shift_full; [lia | assumption].
    + apply push_shift_room. lia.
  - destruct (Nat.eqb_spec (length (ratioHistory (fst (run_frames fs initial)))) 5).
    + apply push_shift_full; [lia | assumption].
    + apply push_shift_room. lia.
Qed.

(** ** The hysteresis gate *)

Lemma hysteresis_open (r : num) :
  hysteresis false r = true <-> (r >!? lit_1_6) = true.
Proof. unfold hysteresis. cbn. destruct (r >!? lit_1_6); split; congruence. Qed.

Lemma hysteresis_close (r : num) :
  hysteresis true r = false <-> (r <!? lit_1_2) = true.
Proof. unfold hysteresis. cbn. destruct (r <!? lit_1_2); split; congruence. Qed.

Lemma hysteresis_dead_zone (open : bool) (r : num) :
  inDeadZone r -> hysteresis open r = open.
Proof.
  intros (Hhi & Hlo). unfold hysteresis. rewrite Hhi, Hlo.
  destruct open; reflexivity.
Qed.

(** A tick with a hand evaluates the gate once, on its [gateInput], and the
    signal it sends carries the gate's state. *)
Lemma processTick_gate (t : Tick num) (s : Store num) :
  hasHand t ->
  isCurrentlyOpen (fst (exec (processTick t) s)) =
    match gateInput t s with
    | Some r => hysteresis (isCurrentlyOpen s) r
    | None => isCurrentlyOpen s
    end /\
  Forall (fun g => isOpen g = isCurrentlyOpen (fst (exec (processTick t) s)))
         (gestures (snd (exec (processTick t) s))).
Proof.
  intros (hand & rest & E). rewrite (processTick_hand t s E).
  unfold gateInput, observation. rewrite E.
  destruct (landmarks hand) as [|wrist lms]; [split; [reflexivity | constructor]|].
  destruct (rawRatio wrist (wrist :: lms));
    (split; [reflexivity | repeat constructor]).
Qed.

Lemma gate_run (ts : list (Tick num)) :
  forall s : Store num,
    Forall hasHand ts ->
    Forall inDeadZone (gateInputs ts s) ->
    isCurrentlyOpen (fst (run_ticks ts s)) = isCurrentlyOpen s /\
    Forall (fun g => isOpen g = isCurrentlyOpen s) (gestures (snd (run_ticks ts s))).
Proof.
  induction ts as [|t ts IH]; intros s Fh Fz.
  - split; [reflexivity | constructor].
  - inversion Fh as [|? ? Ht Fh']; subst.
    cbn [gateInputs] in Fz. apply Forall_app in Fz. destruct Fz as (Fz1 & Fz2).
    destruct (processTick_gate s Ht) as (Hstep & Hsig).
    assert (Hkeep : isCurrentlyOpen (fst (exec (processTick t) s)) = isCurrentlyOpen s).
    { rewrite Hstep. destruct (gateInput t s) as [r|]; [|reflexivity].
      apply hysteresis_dead_zone. inversion Fz1; assumption. }
    destruct (IH _ Fh' Fz2) as (Hrest & Hsigs).
    rewrite run_ticks_cons. cbn [fst snd]. rewrite gestures_app.
    rewrite <- Hkeep. split; [exact Hrest|].
    apply Forall_app. split; assumption.
Qed.

(** C2.  The gate starts closed.  A tick with an observation evaluates it
    once, on the smoothed ratio: closed, it opens exactly when the smoothed
    ratio is above 1.6; open, it closes exactly when the smoothed ratio is
    below 1.2; in every other case it keeps its state.  Hence over ticks with
    observations whose smoothed ratios all stay within [[1.2, 1.6]], the gate
    keeps the state it had, and so does the [isOpen] of every signal sent. *)
Theorem hysteresis_gate (ts : list (Tick num)) (t : Tick num) (s : Store num) (r : num) :
  hasHand t ->
  Forall hasHand ts ->
  Forall inDeadZone (gateInputs ts s) ->
  isCurrentlyOpen (initial : Store num) = false /\
  (hysteresis false r = true <-> (r >!? lit_1_6) = true) /\
  (hysteresis true r = false <-> (r <!? lit_1_2) = true) /\
  isCurrentlyOpen (fst (exec (processTick t) s)) =
    match gateInput t s with
    | Some r' => hysteresis (isCurrentlyOpen s) r'
    | None => isCurrentlyOpen s
    end /\
  isCurrentlyOpen (fst (run_ticks ts s)) = isCurrentlyOpen s /\
  Forall (fun g => isOpen g = isCurrentlyOpen s) (gestures (snd (run_ticks ts s))).
Proof.
  intros Ht Fh Fz.
  split; [reflexivity|].
  split; [apply hysteresis_open|].
  split; [apply hysteresis_close|].
  split; [apply (processTick_gate s Ht)|].
  apply gate_run; assumption.
Qed.

(** ** The smoothers on a constant input *)

Lemma processTick_observation (t : Tick num) (c : Point num) (r : num) (s : Store num) :
  observation t = Some (c, r) ->
  posHistory (fst (exec (processTick t) s)) = push_shift 8 (posHistory s) c /\
  ratioHistory (fst (exec (processTick t) s)) = push_shift 5 (ratioHistory s) r /\
  exists g,
    gestures (snd (exec (processTick t) s)) = [g] /\
    isDetected g = true /\
    position g = smoothedPosition (posHistory (fst (exec (processTick t) s))).
Proof.
  unfold observation. intros O.
  destruct (estimate t) as [|[|hand rest]] eqn:E; try discriminate.
  rewrite (processTick_hand t s E).
  destruct (landmarks hand) as [|wrist lms]; [discriminate|].
  destruct (rawRatio wrist (wrist :: lms)) as [r'|]; [|discriminate].
  cbn in O. injection O as <- <-.
  split; [reflexivity|]. split; [reflexivity|].
  eexists. split; [reflexivity|]. split; reflexivity.
Qed.

Lemma repeat_snoc {A} (c : A) (k : nat) : repeat c k ++ [c] = repeat c (S k).
Proof. induction k as [|k IH]; cbn; [|rewrite IH]; reflexivity. Qed.

Lemma push_shift_endsWith {A} (cap : nat) (c : A) (k : nat) (a : list A) :
  (length a <= cap)%nat ->
  endsWith c k a ->
  endsWith c (Nat.min (S k) cap) (push_shift cap a c).
Proof.
  intros L (pre & ->). rewrite length_app, repeat_length in L.
  unfold push_shift. rewrite <- app_assoc, repeat_snoc.
  rewrite length_app, repeat_length.
  destruct (Nat.ltb_spec cap (length pre + S k)) as [Hfull|Hroom].
  - destruct pre as [|p pre]; cbn [length] in *.
    + assert (k = cap) by lia. subst k. exists [].
      rewrite Nat.min_r by lia. reflexivity.
    + exists pre. rewrite Nat.min_l by lia. reflexivity.
  - exists pre. rewrite Nat.min_l by lia. reflexivity.
Qed.

Lemma endsWith_full {A} (cap : nat) (c : A) (a : list A) :
  (length a <= cap)%nat -> endsWith c cap a -> a = repeat c cap.
Proof.
  intros L (pre & ->). rewrite length_app, repeat_length in L.
  destruct pre; [reflexivity | cbn [length] in L; lia].
Qed.

Lemma constant_position_run (c : Point num) (ts : list (Tick num)) :
  forall (s : Store num) (k : nat),
    bounded s ->
    Forall (feedsPosition c) ts ->
    endsWith c k (posHistory s) ->
    bounded (fst (run_ticks ts s)) /\
    endsWith c (Nat.min (k + length ts) 8) (posHistory (fst (run_ticks ts s))).
Proof.
  induction ts as [|t ts IH]; intros s k B F E.
  - cbn. split; [exact B|]. destruct B as (Bp & _). destruct E as (pre & E).
    rewrite E, length_app, repeat_length in Bp.
    rewrite Nat.add_0_r, Nat.min_l by lia. exists pre. exact E.
  - inversion F as [|? ? (r & O) F']; subst.
    rewrite run_ticks_cons. cbn [fst length].
    destruct (@processTick_observation t _ _ s O) as (Hp & _).
    assert (B1 := bounded_processTick t B).
    assert (E1 : endsWith c (Nat.min (S k) 8) (posHistory (fst (exec (processTick t) s)))).
    { rewrite Hp. apply push_shift_endsWith; [apply B | exact E]. }
    destruct (IH _ _ B1 F' E1) as (B2 & E2).
    split; [exact B2|].
    replace (Nat.min (k + S (length ts)) 8)
      with (Nat.min (Nat.min (S k) 8 + length ts) 8) by lia.
    exact E2.
Qed.

Lemma constant_ratio_run (r : num) (ts : list (Tick num)) :
  forall (s : Store num) (k : nat),
    bounded s ->
    Forall (feedsRatio r) ts ->
    endsWith r k (ratioHistory s) ->
    bounded (fst (run_ticks ts s)) /\
    endsWith r (Nat.min (k + length ts) 5) (ratioHistory (fst (run_ticks ts s))).
Proof.
  induction ts as [|t ts IH]; intros s k B F E.
  - cbn. split; [exact B|]. destruct B as (_ & Br). destruct E as (pre & E).
    rewrite E, length_app, repeat_length in Br.
    rewrite Nat.add_0_r, Nat.min_l by lia. exists pre. exact E.
  - inversion F as [|? ? (c & O) F']; subst.
    rewrite run_ticks_cons. cbn [fst length].
    destruct (@processTick_observation t _ _ s O) as (_ & Hr & _).
    assert (B1 := bounded_processTick t B).
    assert (E1 : endsWith r (Nat.min (S k) 5) (ratioHistory (fst (exec (processTick t) s)))).
    { rewrite Hr. apply push_shift_endsWith; [apply B | exact E]. }
    destruct (IH _ _ B1 F' E1) as (B2 & E2).
    split; [exact B2|].
    replace (Nat.min (k + S (length ts)) 5)
      with (Nat.min (Nat.min (S k) 5 + length ts) 5) by lia.
    exact E2.
Qed.


(** After at least [window] ticks that feed the same value, each buffer
    holds that value and nothing else. *)
Lemma constant_input_fills_buffers (ts : list (Tick num)) (s : Store num) :
  bounded s ->
  (forall c, Forall (feedsPosition c) ts -> (8 <= length ts)%nat ->
     posHistory (fst (run_ticks ts s)) = repeat c 8) /\
  (forall r, Forall (feedsRatio r) ts -> (5 <= length ts)%nat ->
     ratioHistory (fst (run_ticks ts s)) = repeat r 5).
Proof.
  intros B. split.
  - intros c F L.
    assert (E : endsWith c 0 (posHistory s)) by (exists (posHistory s); cbn; rewrite app_nil_r; reflexivity).
    destruct (constant_position_run B F E) as (B' & E').
    rewrite Nat.min_r in E' by lia. apply endsWith_full; [apply B' | exact E'].
  - intros r F L.
    assert (E : endsWith r 0 (ratioHistory s)) by (exists (ratioHistory s); cbn; rewrite app_nil_r; reflexivity).
    destruct (constant_ratio_run B F E) as (B' & E').
    rewrite Nat.min_r in E' by lia. apply endsWith_full; [apply B' | exact E'].
Qed.

(** * Further properties of the loop *)

(** ** Rescheduling *)

Lemma run_frames_app (a b : list (Frame num)) (s : Store num) :
  run_frames (a ++ b) s =
    (fst (run_frames b (fst (run_frames a s))),
     snd (run_frames a s) ++ snd (run_frames b (fst (run_frames a s)))).
Proof.
  revert s. induction a as [|f a IH]; intros s.
  - cbn. destruct (run_frames b s). reflexivity.
  - rewrite <- app_comm_cons, !run_frames_cons, IH. cbn [fst snd].
    rewrite app_assoc. reflexivity.
Qed.

Lemma reschedules_app (a b : list (Event num)) :
  reschedules (a ++ b) = (reschedules a + reschedules b)%nat.
Proof. unfold reschedules. rewrite filter_app, length_app. reflexivity. Qed.

Lemma reschedules_gestures (tr : list (Event num)) :
  Forall (fun e : Event num => exists g, call e = OnGesture g) tr -> reschedules tr = 0%nat.
Proof.
  induction 1 as [|e tr (g & Hg) _ IH]; [reflexivity|].
  unfold reschedules in *. cbn [filter]. unfold isReschedule at 1. rewrite Hg. exact IH.
Qed.

Lemma reschedules_runDetection (f : Frame num) (s : Store num) :
  exists tr,
    snd (exec (runDetection f) s) =
      tr ++ [at_store RequestAnimationFrame (fst (exec (runDetection f) s))] /\
    reschedules tr = 0%nat.
Proof.
  destruct (runDetection_cases f s) as [(_ & ->)|(_ & _ & ->)]; cbn [fst snd].
  - exists []. split; reflexivity.
  - destruct (processTick_trace (tick f) (set_lastDetectionTime (now f) s)) as (tr & E & F).
    exists (snd (exec (processTick (tick f)) (set_lastDetectionTime (now f) s))).
    split; [reflexivity|]. rewrite E.
    change (at_store EstimateHands (set_lastDetectionTime (now f) s) :: tr)
      with ([at_store EstimateHands (set_lastDetectionTime (now f) s)] ++ tr).
    rewrite reschedules_app, (reschedules_gestures F). reflexivity.
Qed.

(** X1.  Whatever a call of [runDetection] meets (video not ready, throttle,
    rejected estimate, a [TypeError] on missing landmarks, no hand, a hand),
    it calls [requestAnimationFrame] exactly once, as its last call, when the
    refs have the values the call leaves them with; so a sequence of
    notifications makes as many requests as it has notifications. *)
Theorem reschedules_exactly_once (fs : list (Frame num)) (f : Frame num) (s : Store num) :
  (exists tr,
     snd (exec (runDetection f) s) =
       tr ++ [at_store RequestAnimationFrame (fst (exec (runDetection f) s))] /\
     reschedules tr = 0%nat) /\
  reschedules (snd (exec (runDetection f) s)) = 1%nat /\
  reschedules (snd (run_frames fs s)) = length fs.
Proof.
  split; [apply reschedules_runDetection|]. split.
  - destruct (reschedules_runDetection f s) as (tr & -> & Z).
    rewrite reschedules_app, Z. reflexivity.
  - revert s. induction fs as [|f' fs IH]; intros s; [reflexivity|].
    rewrite run_frames_cons. cbn [snd length]. rewrite reschedules_app, IH.
    destruct (reschedules_runDetection f' s) as (tr & -> & Z).
    rewrite reschedules_app, Z. reflexivity.
Qed.

(** ** Notifications that do no work *)

Lemma idle_frames (idle : list (Frame num)) (s : Store num) :
  Forall (fun f => passes f s = false) idle ->
  fst (run_frames idle s) = s /\
  gestures (snd (run_frames idle s)) = [] /\
  invocations (snd (run_frames idle s)) = [].
Proof.
  induction 1 as [|f idle P _ IH]; [repeat split; reflexivity|].
  rewrite run_frames_cons.
  destruct (runDetection_cases f s) as [(_ & E)|(P' & _)]; [|congruence].
  rewrite E. cbn [fst snd]. destruct IH as (I1 & I2 & I3).
  rewrite gestures_app, invocations_app, I1, I2, I3. repeat split; reflexivity.
Qed.

(** X2.  Notifications that find the video not ready, or come less than
    60 ms after [lastDetectionTime] (also when the clock has been set back),
    are invisible: however many there are, they change no ref, call neither
    [estimateHands] nor [onGesture], and taking them out of a sequence of
    notifications changes neither the refs it ends with nor the signals and
    detector calls it makes. *)
Theorem idle_frames_invisible (before idle after : list (Frame num)) (s : Store num) :
  Forall (fun f => passes f (fst (run_frames before s)) = false) idle ->
  fst (run_frames idle (fst (run_frames before s))) = fst (run_frames before s) /\
  fst (run_frames (before ++ idle ++ after) s) = fst (run_frames (before ++ after) s) /\
  gestures (snd (run_frames (before ++ idle ++ after) s)) =
    gestures (snd (run_frames (before ++ after) s)) /\
  invocations (snd (run_frames (before ++ idle ++ after) s)) =
    invocations (snd (run_frames (before ++ after) s)).
Proof.
  intros Hidle. destruct (@idle_frames idle _ Hidle) as (I1 & I2 & I3).
  split; [exact I1|].
  rewrite !run_frames_app. cbn [fst snd].
  rewrite !gestures_app, !invocations_app, I1, I2, I3. repeat split; reflexivity.
Qed.

(** ** How many calls *)




(** ** Hands with missing landmarks *)




(** ** Several hands *)

Lemma firstHandOnly_processTick (t : Tick num) (s : Store num) :
  exec (processTick (firstHandOnly t)) s = exec (processTick t) s.
Proof.
  destruct (tick_cases t) as [E|[E|(hand & rest & E)]].
  - rewrite (processTick_rejected t s E).
    apply processTick_rejected. cbn. rewrite E. reflexivity.
  - rewrite (processTick_miss t s E).
    apply processTick_miss. cbn. rewrite E. reflexivity.
  - rewrite (processTick_hand t s E).
    apply (@processTick_hand (firstHandOnly t) hand [] s). cbn. rewrite E. reflexivity.
Qed.

Lemma firstHandOnly_runDetection (f : Frame num) (s : Store num) :
  exec (runDetection (firstHandOnlyFrame f)) s = exec (runDetection f) s.
Proof.
  destruct (runDetection_cases f s) as [(P & ->)|(P & _ & ->)];
    destruct (runDetection_cases (firstHandOnlyFrame f) s) as [(P' & ->)|(P' & _ & ->)];
    change (passes (firstHandOnlyFrame f) s) with (passes f s) in P'; try congruence.
  cbn [firstHandOnlyFrame tick now]. rewrite firstHandOnly_processTick. reflexivity.
Qed.

(** X5.  Of the hands the detector reports only the first is looked at:
    dropping the others from every answer changes neither the refs nor any
    call of a sequence of notifications. *)
Theorem only_first_hand_used (fs : list (Frame num)) (s : Store num) :
  run_frames (map firstHandOnlyFrame fs) s = run_frames fs s.
Proof.
  revert s. induction fs as [|f fs IH]; intros s; [reflexivity|].
  cbn [map]. rewrite !run_frames_cons, firstHandOnly_runDetection, IH. reflexivity.
Qed.

(** ** After a confirmed loss *)

Lemma alike_processTick (t : Tick num) (a b : Store num) :
  alike a b ->
  alike (fst (exec (processTick t) a)) (fst (exec (processTick t) b)) /\
  gestures (snd (exec (processTick t) a)) = gestures (snd (exec (processTick t) b)).
Proof.
  intros (Hp & Hr & Ho & Hm).
  destruct (tick_cases t) as [E|[E|(hand & rest & E)]].
  - rewrite !(processTick_rejected t _ E). split; [repeat split; assumption | reflexivity].
  - rewrite !(processTick_miss t _ E).
    destruct (Nat.ltb_spec 5 (S (missedFrames a))), (Nat.ltb_spec 5 (S (missedFrames b)));
      try (exfalso; lia).
    + split; [|reflexivity]. repeat split; try reflexivity. cbn. right. lia.
    + split; [|reflexivity]. repeat split; try assumption. cbn. left. lia.
  - rewrite !(processTick_hand t _ E).
    destruct (landmarks hand) as [|wrist lms].
    + split; [|reflexivity]. repeat split; try assumption. cbn. left. reflexivity.
    + destruct (rawRatio wrist (wrist :: lms)) as [r|].
      * unfold detectedSignal, detectedStore, positionedStore. cbn. rewrite Hp, Hr, Ho.
        split; [|reflexivity]. repeat split; try reflexivity. left. reflexivity.
      * unfold positionedStore. cbn. rewrite Hp.
        split; [|reflexivity]. repeat split; try assumption. left. reflexivity.
Qed.

Lemma alike_run_ticks (ts : list (Tick num)) :
  forall a b : Store num,
    alike a b ->
    alike (fst (run_ticks ts a)) (fst (run_ticks ts b)) /\
    gestures (snd (run_ticks ts a)) = gestures (snd (run_ticks ts b)).
Proof.
  induction ts as [|t ts IH]; intros a b A.
  - split; [exact A | reflexivity].
  - rewrite !run_ticks_cons. cbn [fst snd].
    destruct (alike_processTick t A) as (A1 & G1).
    destruct (IH _ _ A1) as (A2 & G2).
    split; [exact A2|]. rewrite !gestures_app, G1, G2. reflexivity.
Qed.

(** X6.  A confirmed loss wipes the filter's memory: after six or more
    consecutive misses, the signals sent on the ticks that follow, and the
    buffers and gate they leave, are the same whatever the refs were before
    the misses. *)
Theorem loss_erases_history
    (lost_a lost_b ts : list (Tick num)) (a b : Store num) :
  Forall noHand lost_a -> (6 <= length lost_a)%nat ->
  Forall noHand lost_b -> (6 <= length lost_b)%nat ->
  gestures (snd (run_ticks ts (fst (run_ticks lost_a a)))) =
    gestures (snd (run_ticks ts (fst (run_ticks lost_b b)))) /\
  posHistory (fst (run_ticks ts (fst (run_ticks lost_a a)))) =
    posHistory (fst (run_ticks ts (fst (run_ticks lost_b b)))) /\
  ratioHistory (fst (run_ticks ts (fst (run_ticks lost_a a)))) =
    ratioHistory (fst (run_ticks ts (fst (run_ticks lost_b b)))) /\
  isCurrentlyOpen (fst (run_ticks ts (fst (run_ticks lost_a a)))) =
    isCurrentlyOpen (fst (run_ticks ts (fst (run_ticks lost_b b)))).
Proof.
  intros Fa La Fb Lb.
  destruct (run_misses a Fa) as (Ma & _ & _ & _ & Ca).
  destruct (run_misses b Fb) as (Mb & _ & _ & _ & Cb).
  destruct Ca as (Pa & Ra & Oa); [intros ->; cbn in La; lia | lia |].
  destruct Cb as (Pb & Rb & Ob); [intros ->; cbn in Lb; lia | lia |].
  assert (A : alike (fst (run_ticks lost_a a)) (fst (run_ticks lost_b b))).
  { repeat split; try congruence. right. lia. }
  destruct (alike_run_ticks ts A) as ((Hp & Hr & Ho & _) & G).
  repeat split; assumption.
Qed.

(** ** The buffers as sliding windows *)

Lemma lastn_all {A} (k : nat) (l : list A) : (length l <= k)%nat -> lastn k l = l.
Proof.
  intros L. unfold lastn. replace (length l - k)%nat with 0%nat by lia. reflexivity.
Qed.

Lemma push_shift_lastn {A} (cap : nat) (a : list A) (v : A) :
  (length a <= cap)%nat -> push_shift cap a v = lastn cap (a ++ [v]).
Proof.
  intros L. unfold push_shift, lastn. rewrite length_app. cbn [length].
  destruct (Nat.ltb_spec cap (length a + 1)) as [Hfull|Hroom].
  - replace (length a + 1 - cap)%nat with 1%nat by lia.
    destruct (a ++ [v]); reflexivity.
  - replace (length a + 1 - cap)%nat with 0%nat by lia. reflexivity.
Qed.

Lemma lastn_app_lastn {A} (k : nat) (l m : list A) :
  lastn k (lastn k l ++ m) = lastn k (l ++ m).
Proof.
  destruct (Nat.le_gt_cases (length l) k) as [Hle|Hgt].
  - rewrite (lastn_all l Hle). reflexivity.
  - unfold lastn. rewrite !length_app, length_skipn.
    replace (length l - (length l - k) + length m - k)%nat with (length m) by lia.
    replace (length l + length m - k)%nat with (length m + (length l - k))%nat by lia.
    rewrite <- skipn_skipn. f_equal. rewrite (skipn_app (length l - k) l m).
    replace (length l - k - length l)%nat with 0%nat by lia. reflexivity.
Qed.

Lemma sliding_window_run (ts : list (Tick num)) :
  forall (obs : list (Point num * num)) (s : Store num),
    bounded s ->
    Forall2 (fun t o => observation t = Some o) ts obs ->
    bounded (fst (run_ticks ts s)) /\
    posHistory (fst (run_ticks ts s)) = lastn 8 (posHistory s ++ map fst obs) /\
    ratioHistory (fst (run_ticks ts s)) = lastn 5 (ratioHistory s ++ map snd obs) /\
    length (gestures (snd (run_ticks ts s))) = length ts.
Proof.
  induction ts as [|t ts IH]; intros obs s B F.
  - inversion F; subst. cbn [run_ticks fst snd map]. rewrite !app_nil_r.
    destruct B as (Bp & Br). rewrite !lastn_all by assumption.
    repeat split; assumption || reflexivity.
  - inversion F as [|? o ? obs' O F']; subst. destruct o as [c r].
    rewrite run_ticks_cons. cbn [fst snd map length].
    destruct (@processTick_observation t c r s O) as (Hp & Hr & g & Hg & _).
    assert (B1 := bounded_processTick t B).
    destruct (IH obs' _ B1 F') as (B2 & Wp & Wr & Wg).
    split; [exact B2|].
    rewrite Wp, Wr, Hp, Hr, gestures_app, length_app, Hg, Wg.
    rewrite !push_shift_lastn by apply B.
    rewrite !lastn_app_lastn, <- !app_assoc. repeat split; reflexivity.
Qed.

(** X7.  Both buffers are sliding windows.  From a state whose buffers are
    within their capacities, after any run of ticks that bring observations
    the position history is the last 8 entries of what it held followed by
    the raw positions of the run, the ratio history is the last 5 entries of
    what it held followed by the raw ratios of the run, and every tick of the
    run has sent one signal. *)
Theorem sliding_window
    (ts : list (Tick num)) (obs : list (Point num * num)) (s : Store num) :
  bounded s ->
  Forall2 (fun t o => observation t = Some o) ts obs ->
  posHistory (fst (run_ticks ts s)) = lastn 8 (posHistory s ++ map fst obs) /\
  ratioHistory (fst (run_ticks ts s)) = lastn 5 (ratioHistory s ++ map snd obs) /\
  length (gestures (snd (run_ticks ts s))) = length ts.
Proof.
  intros B F. apply (sliding_window_run B F).
Qed.

(** ** The signal of a detection and the refs *)

Lemma push_shift_nonempty {A} (cap : nat) (a : list A) (v : A) :
  (0 < cap)%nat -> push_shift cap a v <> [].
Proof.
  intros C. unfold push_shift. rewrite length_app. cbn [length].
  destruct (Nat.ltb_spec cap (length a + 1)) as [Hfull|Hroom].
  - destruct a as [|x a]; cbn [length] in *; [lia|].
    cbn [app tl]. intros E. apply app_eq_nil in E. destruct E as (_ & E). discriminate E.
  - intros E. apply app_eq_nil in E. destruct E as (_ & E). discriminate E.
Qed.

Lemma detectedSeen_processTick (t : Tick num) (s : Store num) :
  Forall detectedSeen (snd (exec (processTick t) s)).
Proof.
  assert (E0 : forall s', detectedSeen (at_store EstimateHands s'))
    by (intros s' g Hc; discriminate Hc).
  destruct (tick_cases t) as [E|[E|(hand & rest & E)]].
  - rewrite (processTick_rejected t s E). constructor; [apply E0 | constructor].
  - rewrite (processTick_miss t s E). destruct (5 <? S (missedFrames s))%nat.
    + constructor; [apply E0|]. constructor; [|constructor].
      intros g Hc Hd. cbn in Hc. injection Hc as <-. discriminate Hd.
    + constructor; [apply E0 | constructor].
  - rewrite (processTick_hand t s E).
    destruct (landmarks hand) as [|wrist lms]; [constructor; [apply E0 | constructor]|].
    destruct (rawRatio wrist (wrist :: lms)); [|constructor; [apply E0 | constructor]].
    constructor; [apply E0|]. constructor; [|constructor].
    intros g Hc _. cbn in Hc. injection Hc as <-.
    split; [reflexivity|]. split; [reflexivity|]. split; [reflexivity|].
    split; cbn; apply push_shift_nonempty; lia.
Qed.

Lemma detectedSeen_run_frames (fs : list (Frame num)) :
  forall s : Store num, Forall detectedSeen (snd (run_frames fs s)).
Proof.
  assert (R0 : forall s', detectedSeen (at_store RequestAnimationFrame s'))
    by (intros s' g Hc; discriminate Hc).
  induction fs as [|f fs IH]; intros s; [constructor|].
  rewrite run_frames_cons. cbn [snd]. apply Forall_app. split; [|apply IH].
  destruct (runDetection_cases f s) as [(_ & ->)|(_ & _ & ->)]; cbn [snd].
  - constructor; [apply R0 | constructor].
  - apply Forall_app. split; [apply detectedSeen_processTick|].
    constructor; [apply R0 | constructor].
Qed.

(** X8.  Whenever [onGesture] is called with [isDetected = true], the signal
    is read off the refs as they are at the call: its [isOpen] is the gate,
    its [position] is the mean of the position history, the miss counter is
    0, and both buffers hold at least one sample, so neither mean is taken
    over an empty buffer. *)
Theorem detected_signal_mirrors_refs
    (fs : list (Frame num)) (s : Store num) (e : Event num) (g : GestureSignal num) :
  In e (snd (run_frames fs s)) ->
  call e = OnGesture g ->
  isDetected g = true ->
  isOpen g = isCurrentlyOpen (seen e) /\
  position g = smoothedPosition (posHistory (seen e)) /\
  missedFrames (seen e) = 0%nat /\
  posHistory (seen e) <> [] /\
  ratioHistory (seen e) <> [].
Proof.
  intros Hin. apply (proj1 (Forall_forall _ _) (detectedSeen_run_frames fs s) e Hin).
Qed.

(** ** The loop and the cleanup of its effect *)

Lemma runCallback_one (f : Frame num) (l : Loop num) :
  runCallback f l =
    {| refs := fst (exec (runDetection f) (refs l));
       pending := pending l ++ [nextHandle l];
       nextHandle := S (nextHandle l) |}.
Proof.
  unfold runCallback.
  destruct (reschedules_runDetection f (refs l)) as (tr & E & Z).
  assert (R : reschedules (snd (exec (runDetection f) (refs l))) = 1%nat)
    by (rewrite E, reschedules_app, Z; reflexivity).
  rewrite R. reflexivity.
Qed.

Lemma animationFrame_one (f : Frame num) (s : Store num) (h n : nat) :
  animationFrame f {| refs := s; pending := [h]; nextHandle := n |} =
    {| refs := fst (exec (runDetection f) s); pending := [n]; nextHandle := S n |}.
Proof. unfold animationFrame. cbn [fold_left pending refs nextHandle]. apply runCallback_one. Qed.

Lemma animationFrames_one (fs : list (Frame num)) :
  forall (s : Store num) (h n : nat),
    animationFrames fs {| refs := s; pending := [h]; nextHandle := n |} =
      {| refs := fst (run_frames fs s);
         pending := [match fs with [] => h | _ => (n + length fs - 1)%nat end];
         nextHandle := (n + length fs)%nat |}.
Proof.
  induction fs as [|f fs IH]; intros s h n.
  - cbn. rewrite Nat.add_0_r. reflexivity.
  - cbn [animationFrames]. rewrite animationFrame_one, IH, run_frames_cons.
    cbn [fst length]. f_equal.
    + destruct fs; cbn [length]; f_equal; lia.
    + lia.
Qed.

(** X11.  The effect keeps the handle of its own request only, and
    [runDetection] drops the handles of the requests it makes.  So the
    cleanup stops the loop only if it runs before the first frame: once a
    frame has been served, [runDetection] is registered under a handle that
    is not [timer], the cleanup cancels nothing, and every later frame still
    runs [runDetection]. *)
Theorem cleanup_stops_only_unstarted_loop
    (served later : list (Frame num)) (s : Store num) (n : nat) :
  served <> [] ->
  fst (startLoop (mounted s n)) = n /\
  pending (cleanup n (snd (startLoop (mounted s n)))) = [] /\
  pending (cleanup n (animationFrames served (snd (startLoop (mounted s n))))) =
    [(n + length served)%nat] /\
  (n + length served)%nat <> n /\
  refs (animationFrames later
          (cleanup n (animationFrames served (snd (startLoop (mounted s n)))))) =
    fst (run_frames (served ++ later) s).
Proof.
  intros N. unfold startLoop, mounted, requestAnimationFrame, cleanup, cancelAnimationFrame.
  cbn [fst snd pending refs nextHandle app].
  assert (L : (1 <= length served)%nat) by (destruct served; [contradiction | cbn; lia]).
  split; [reflexivity|].
  split; [cbn; rewrite Nat.eqb_refl; reflexivity|].
  rewrite animationFrames_one. cbn [pending refs nextHandle filter].
  destruct served as [|f served']; [contradiction|]. cbn [length] in *.
  replace (S n + S (length served') - 1)%nat with (n + S (length served'))%nat by lia.
  destruct (Nat.eqb_spec (n + S (length served')) n) as [E|_]; [lia|]. cbn [negb].
  split; [reflexivity|]. split; [lia|].
  rewrite animationFrames_one. cbn [refs]. rewrite run_frames_app. reflexivity.
Qed.

(** ** Rejected estimates within a run *)

(** X12.  A rejected estimate is neither a detection nor a miss, also
    within a run: taking the ticks with a rejected estimate out of any
    sequence of ticks changes neither the refs it ends with nor the signals
    it sends.  (So rejections between misses neither count towards the loss
    nor restart the count.) *)
Theorem rejected_ticks_invisible (ts : list (Tick num)) (s : Store num) :
  fst (run_ticks (filter (fun t => negb (isRejected t)) ts) s) = fst (run_ticks ts s) /\
  gestures (snd (run_ticks (filter (fun t => negb (isRejected t)) ts) s)) =
    gestures (snd (run_ticks ts s)).
Proof.
  revert s. induction ts as [|t ts IH]; intros s; [split; reflexivity|].
  cbn [filter]. destruct (isRejected t) eqn:R; cbn [negb].
  - assert (E : estimate t = Rejected)
      by (unfold isRejected in R; destruct (estimate t); [reflexivity | discriminate R]).
    rewrite (run_ticks_cons t ts s), (processTick_rejected t s E). cbn [fst snd].
    rewrite gestures_app. apply IH.
  - rewrite !run_ticks_cons. cbn [fst snd]. rewrite !gestures_app.
    destruct (IH (fst (exec (processTick t) s))) as (I1 & I2).
    rewrite I1, I2. split; reflexivity.
Qed.

Lemma observation_hasHand (t : Tick num) (o : Point num * num) :
  observation t = Some o -> hasHand t.
Proof.
  unfold observation, hasHand. destruct (estimate t) as [|[|hand rest]]; try discriminate.
  intros _. exists hand, rest. reflexivity.
Qed.

Lemma gateInput_observation (t : Tick num) (c : Point num) (r : num) (s : Store num) :
  observation t = Some (c, r) ->
  gateInput t s = Some (smoothedRatio (push_shift 5 (ratioHistory s) r)).
Proof. intros O. unfold gateInput. rewrite O. reflexivity. Qed.

End Theory.

(** ** The openness ratio on IEEE-754 doubles *)

(** [avgBaseDist || 1] is never [0], [-0] or [NaN]. *)
Lemma denominator_truthy (a : float) : truthy (denominator a) = true.
Proof.
  unfold denominator, or_else. destruct (truthy a) eqn:T; [exact T | reflexivity].
Qed.

Lemma binary_round_aux_nonneg (m e : Z) (l : location) :
  SFnonneg (binary_round_aux prec emax false m e l).
Proof.
  unfold binary_round_aux.
  destruct (shr_fexp prec emax m e l) as [mrs' e'].
  destruct (shr_fexp prec emax _ e' loc_Exact) as [mrs'' e''].
  destruct (shr_m mrs''); [exact I | | exact I].
  destruct (Z.leb e'' (emax - prec)); reflexivity.
Qed.

Lemma binary_round_nonneg (m : positive) (e : Z) :
  SFnonneg (binary_round prec emax false m e).
Proof.
  unfold binary_round. destruct (shl_align m e _) as [mz ez].
  apply binary_round_aux_nonneg.
Qed.

Lemma SFsqrt_nonneg (a : spec_float) : SFnonneg (SFsqrt prec emax a).
Proof.
  destruct a as [s|s| |s m e]; try destruct s; try exact I; try reflexivity.
  unfold SFsqrt. destruct (SFsqrt_core_binary prec emax (Zpos m) e) as [[mz ez] lz].
  apply binary_round_aux_nonneg.
Qed.

Lemma SFadd_nonneg (a b : spec_float) :
  SFnonneg a -> SFnonneg b -> SFnonneg (SFadd prec emax a b).
Proof.
  destruct a as [sa|sa| |sa ma ea], b as [sb|sb| |sb mb eb]; cbn [SFnonneg];
    intros A B; subst; try exact I; try reflexivity.
  - unfold SFadd. destruct sa, sb; exact I.
  - unfold SFadd. cbn [cond_Zopp Z.add]. cbn [binary_normalize].
    apply binary_round_nonneg.
Qed.

Lemma SFdiv_nonneg (a b : spec_float) :
  SFnonneg a -> SFpositive b -> SFnonneg (SFdiv prec emax a b).
Proof.
  destruct a as [sa|sa| |sa ma ea], b as [sb|sb| |sb mb eb];
    cbn [SFnonneg SFpositive]; intros A B; subst; try contradiction;
    try exact I; try reflexivity.
  unfold SFdiv.
  destruct (SFdiv_core_binary prec emax (Zpos ma) ea (Zpos mb) eb) as [[mz ez] lz].
  apply binary_round_aux_nonneg.
Qed.

Lemma SFnonneg_not_negative (a : spec_float) :
  SFnonneg a -> SFltb a (S754_zero false) = false.
Proof.
  destruct a as [s|s| |s m e]; cbn; intros A; subst; reflexivity.
Qed.

Lemma double_zero_spec : Prim2SF 0%float = S754_zero false.
Proof. vm_compute. reflexivity. Qed.

Lemma double_nonneg_not_negative (a : float) : nonneg a -> (a <? 0)%float = false.
Proof. intros A. rewrite ltb_spec, double_zero_spec. apply SFnonneg_not_negative, A. Qed.

Lemma double_add_nonneg (a b : float) : nonneg a -> nonneg b -> nonneg (a + b)%float.
Proof. unfold nonneg. rewrite add_spec. apply SFadd_nonneg. Qed.

Lemma double_sqrt_nonneg (a : float) : nonneg (PrimFloat.sqrt a).
Proof. unfold nonneg. rewrite sqrt_spec. apply SFsqrt_nonneg. Qed.

Lemma double_div_nonneg (a b : float) : nonneg a -> strictlyPositive b -> nonneg (a / b)%float.
Proof. unfold nonneg, strictlyPositive. rewrite div_spec. apply SFdiv_nonneg. Qed.

Lemma double_truthy_positive (a : float) : nonneg a -> truthy a = true -> strictlyPositive a.
Proof.
  unfold nonneg, strictlyPositive. cbn [truthy float_number].
  unfold is_nan, PrimFloat.zero. rewrite !eqb_spec, double_zero_spec.
  destruct (Prim2SF a) as [s|s| |s m e]; cbn; intros A T; subst;
    try reflexivity; discriminate.
Qed.

Lemma denominator_positive_double (a : float) : nonneg a -> strictlyPositive (denominator a).
Proof.
  intros A. unfold denominator, or_else. destruct (truthy a) eqn:T.
  - apply double_truthy_positive; assumption.
  - vm_compute. reflexivity.
Qed.

Lemma totalDists_nonneg_double (wrist : Landmark float) (lms : list (Landmark float)) :
  length lms = 21%nat ->
  exists totals,
    totalDists wrist lms = Some totals /\ nonneg (fst totals) /\ nonneg (snd totals).
Proof.
  intros L.
  do 21 (destruct lms as [|? lms]; [discriminate L|]).
  destruct lms; [|discriminate L].
  eexists. split; [reflexivity|]. cbn [fst snd].
  split; repeat (apply double_add_nonneg; [|apply double_sqrt_nonneg]); vm_compute; exact I.
Qed.

Lemma ratioOf_nonneg_double (totals : float * float) :
  nonneg (fst totals) -> nonneg (snd totals) -> nonneg (ratioOf totals).
Proof.
  intros B T. unfold ratioOf.
  assert (P4 : strictlyPositive (of_Z 4)) by (vm_compute; reflexivity).
  apply double_div_nonneg; [apply double_div_nonneg; assumption|].
  apply denominator_positive_double, double_div_nonneg; assumption.
Qed.

(** ** Rounding to a double *)

Section Rounding.

Local Open Scope Z_scope.

Lemma digits2_pos_size (p : positive) : digits2_pos p = Pos.size p.
Proof. induction p as [p IH|p IH|]; cbn; [rewrite IH| rewrite IH|]; reflexivity. Qed.

Lemma Zdigits2_log2 (m : Z) : 0 < m -> Zdigits2 m = Z.log2 m + 1.
Proof.
  destruct m as [|p|p]; try lia. intros _. cbn [Zdigits2]. rewrite digits2_pos_size.
  destruct p as [p|p|]; cbn [Z.log2 Pos.size]; lia.
Qed.

Lemma fexp_double (e : Z) : fexp prec emax e = Z.max (e - 53) (-1074).
Proof. reflexivity. Qed.

Lemma shr_1_m (mrs : shr_record) : 0 <= shr_m mrs -> shr_m (shr_1 mrs) = shr_m mrs / 2.
Proof.
  destruct mrs as [m r s]. cbn [shr_m]. intros P.
  destruct m as [|p|p]; [reflexivity | | lia].
  destruct p as [p|p|]; cbn [shr_1 shr_m].
  - rewrite (Pos2Z.inj_xI p). Z.div_mod_to_equations. lia.
  - rewrite (Pos2Z.inj_xO p). Z.div_mod_to_equations. lia.
  - reflexivity.
Qed.

Lemma iter_shr_1_m (p : positive) :
  forall mrs, 0 <= shr_m mrs ->
    shr_m (SpecFloat.iter_pos shr_1 p mrs) = shr_m mrs / 2 ^ Zpos p.
Proof.
  induction p as [p IH|p IH|]; intros mrs P; cbn [SpecFloat.iter_pos].
  - assert (P1 : 0 <= shr_m (shr_1 mrs)) by (rewrite shr_1_m by lia; apply Z.div_pos; lia).
    assert (P2 : 0 <= shr_m (SpecFloat.iter_pos shr_1 p (shr_1 mrs))).
    { rewrite IH by lia. apply Z.div_pos; lia. }
    rewrite IH by lia. rewrite IH by lia. rewrite shr_1_m by lia.
    rewrite !Z.div_div by lia. f_equal.
    rewrite (Pos2Z.inj_xI p).
    replace (2 * Z.pos p + 1) with (1 + Z.pos p + Z.pos p) by lia.
    rewrite !Z.pow_add_r by lia. lia.
  - assert (P2 : 0 <= shr_m (SpecFloat.iter_pos shr_1 p mrs)).
    { rewrite IH by lia. apply Z.div_pos; lia. }
    rewrite IH by lia. rewrite IH by lia.
    rewrite !Z.div_div by lia. f_equal.
    rewrite (Pos2Z.inj_xO p).
    replace (2 * Z.pos p) with (Z.pos p + Z.pos p) by lia.
    rewrite !Z.pow_add_r by lia. lia.
  - rewrite shr_1_m by lia. reflexivity.
Qed.

Lemma shr_m_of_loc (m : Z) (l : location) : shr_m (shr_record_of_loc m l) = m.
Proof. destruct l as [|[]]; reflexivity. Qed.

Lemma loc_of_shr_record_of_loc (m : Z) (l : location) :
  loc_of_shr_record (shr_record_of_loc m l) = l.
Proof. destruct l as [|[]]; reflexivity. Qed.

Lemma shr_fexp_spec (m e : Z) (l : location) :
  0 <= m ->
  shr_m (fst (shr_fexp prec emax m e l)) = m / 2 ^ droppedBits m e /\
  snd (shr_fexp prec emax m e l) = e + droppedBits m e /\
  (droppedBits m e = 0 -> fst (shr_fexp prec emax m e l) = shr_record_of_loc m l).
Proof.
  intros P. unfold shr_fexp, droppedBits, shr.
  destruct (fexp prec emax (Zdigits2 m + e) - e) as [|p|p] eqn:K; cbn [fst snd].
  - rewrite shr_m_of_loc, Z.div_1_r. repeat split; lia.
  - rewrite Z.max_r by lia. rewrite iter_shr_1_m by (rewrite shr_m_of_loc; lia).
    rewrite shr_m_of_loc. repeat split. lia.
  - rewrite Z.max_l by lia. rewrite shr_m_of_loc, Z.div_1_r. repeat split; lia.
Qed.

Lemma round_nearest_even_cases (m : Z) (l : location) :
  round_nearest_even m l = m \/ round_nearest_even m l = m + 1.
Proof.
  destruct l as [|[]]; cbn; auto. destruct (Z.even m); auto.
Qed.

Lemma log2_succ_cases (m : Z) :
  0 < m ->
  Z.log2 (m + 1) = Z.log2 m \/ (Z.log2 (m + 1) = Z.log2 m + 1 /\ m + 1 = 2 ^ (Z.log2 m + 1)).
Proof.
  intros P. destruct (Z.log2_spec m P) as (Lo & Hi).
  assert (L0 := Z.log2_nonneg m).
  destruct (Z.eq_dec (m + 1) (2 ^ Z.succ (Z.log2 m))) as [E|N].
  - right. unfold Z.succ in E. split; [|exact E]. rewrite E. apply Z.log2_pow2. lia.
  - left. apply Z.log2_unique; lia.
Qed.

Lemma div_pow2_pos (m k : Z) : 0 < m -> 0 <= k <= Z.log2 m -> 0 < m / 2 ^ k.
Proof.
  intros P K. apply Z.div_str_pos. split; [apply Z.pow_pos_nonneg; lia|].
  apply Z.le_trans with (2 ^ Z.log2 m).
  - apply Z.pow_le_mono_r; lia.
  - apply Z.log2_spec; lia.
Qed.

Lemma log2_div_pow2 (m k : Z) : 0 < m -> 0 <= k <= Z.log2 m -> Z.log2 (m / 2 ^ k) = Z.log2 m - k.
Proof.
  intros P K. rewrite <- Z.shiftr_div_pow2 by lia. rewrite Z.log2_shiftr by lia. lia.
Qed.

Lemma binary_round_aux_faithful (sx : bool) (mx ex : Z) (lx : location) :
  0 < mx ->
  droppedBits mx ex <= Z.log2 mx ->
  ex + droppedBits mx ex < 971 ->
  exists m3 e3 m2,
    binary_round_aux prec emax sx mx ex lx = S754_finite sx m3 e3 /\
    (m2 = mx / 2 ^ droppedBits mx ex \/ m2 = mx / 2 ^ droppedBits mx ex + 1) /\
    (droppedBits mx ex = 0 -> lx = loc_Exact -> m2 = mx) /\
    ex + droppedBits mx ex <= e3 /\
    Zpos m3 * 2 ^ (e3 - (ex + droppedBits mx ex)) = m2 /\
    (ex <= fexp prec emax (Zdigits2 mx + ex) -> fexp prec emax (Zdigits2 (Zpos m3) + e3) = e3).
Proof.
  intros P K O.
  assert (K0 : 0 <= droppedBits mx ex) by (unfold droppedBits; lia).
  unfold binary_round_aux.
  destruct (@shr_fexp_spec mx ex lx) as (A1 & A2 & A3); [lia|].
  destruct (shr_fexp prec emax mx ex lx) as [mrs' e'] eqn:E1. cbn [fst snd] in A1, A2, A3.
  assert (P' : 0 < shr_m mrs') by (rewrite A1; apply div_pow2_pos; lia).
  assert (L' : Z.log2 (shr_m mrs') = Z.log2 mx - droppedBits mx ex)
    by (rewrite A1; apply log2_div_pow2; lia).
  set (m2 := round_nearest_even (shr_m mrs') (loc_of_shr_record mrs')).
  assert (C : m2 = shr_m mrs' \/ m2 = shr_m mrs' + 1) by apply round_nearest_even_cases.
  assert (P2 : 0 < m2) by lia.
  destruct (@shr_fexp_spec m2 e' loc_Exact) as (B1 & B2 & B3); [lia|].
  destruct (shr_fexp prec emax m2 e' loc_Exact) as [mrs'' e''] eqn:E2. cbn [fst snd] in B1, B2, B3.
  assert (X : m2 = mx / 2 ^ droppedBits mx ex \/ m2 = mx / 2 ^ droppedBits mx ex + 1)
    by (rewrite <- A1; exact C).
  assert (Y : droppedBits mx ex = 0 -> lx = loc_Exact -> m2 = mx).
  { intros Z0 ->. unfold m2. rewrite A3 by exact Z0. cbn. reflexivity. }
  assert (D2 : Z.log2 m2 = Z.log2 (shr_m mrs') \/
               (Z.log2 m2 = Z.log2 (shr_m mrs') + 1 /\ m2 = 2 ^ (Z.log2 (shr_m mrs') + 1))).
  { destruct C as [->| ->]; [left; reflexivity | apply log2_succ_cases; lia]. }
  assert (L0 := Z.log2_nonneg (shr_m mrs')).
  unfold droppedBits in *.
  rewrite !fexp_double in *. rewrite (Zdigits2_log2 P) in *. rewrite (Zdigits2_log2 P2) in *.
  set (k := Z.max 0 (Z.max (Z.log2 mx + 1 + ex - 53) (-1074) - ex)) in *.
  set (k2 := Z.max 0 (Z.max (Z.log2 m2 + 1 + e' - 53) (-1074) - e')) in *.
  assert (K2 : k2 = 0 \/ (k2 = 1 /\ m2 = 2 ^ (Z.log2 (shr_m mrs') + 1) /\ Z.log2 m2 = Z.log2 (shr_m mrs') + 1)).
  { unfold k2. destruct D2 as [D|(D & E)]; rewrite D; lia. }
  destruct K2 as [Z2|(Z2 & M2 & D)].
  - rewrite Z2 in B1, B2. rewrite Z.div_1_r in B1. rewrite B1.
    destruct m2 as [|m3|m3] eqn:M; try lia.
    replace (e'' <=? emax - prec) with true by (symmetry; apply Z.leb_le; unfold emax, prec; lia).
    exists m3, e'', (Z.pos m3). split; [reflexivity|]. split; [exact X|]. split; [exact Y|].
    split; [lia|]. split.
    + replace (e'' - (ex + k)) with 0 by lia. lia.
    + intros Hc. rewrite !fexp_double in *. rewrite !Zdigits2_log2 in * by lia.
      unfold k2 in Z2. lia.
  - rewrite Z2 in B1, B2. rewrite B1.
    assert (H2 : m2 / 2 ^ 1 = 2 ^ Z.log2 (shr_m mrs')).
    { rewrite M2, Z.pow_add_r by lia. apply Z.div_mul. lia. }
    rewrite H2.
    assert (PP : 0 < 2 ^ Z.log2 (shr_m mrs')) by (apply Z.pow_pos_nonneg; lia).
    destruct (2 ^ Z.log2 (shr_m mrs')) as [|m3|m3] eqn:M; try lia.
    replace (e'' <=? emax - prec) with true by (symmetry; apply Z.leb_le; unfold emax, prec; lia).
    exists m3, e'', m2. split; [reflexivity|]. split; [exact X|]. split; [exact Y|].
    split; [lia|]. split.
    + replace (e'' - (ex + k)) with 1 by lia. rewrite M2, Z.pow_add_r by lia. lia.
    + intros Hc. rewrite !fexp_double in *. rewrite !Zdigits2_log2 in * by lia.
      rewrite <- M, Z.log2_pow2 by lia.
      unfold k2 in Z2. lia.
Qed.


(** The quotient of the mantissas, as [SFdiv] computes it. *)
Lemma SFdiv_core_binary_spec (m1 e1 m2 e2 : Z) :
  exists l,
    SFdiv_core_binary prec emax m1 e1 m2 e2 =
      (m1 * 2 ^ (e1 - e2 - Z.min (fexp prec emax (Zdigits2 m1 + e1 - (Zdigits2 m2 + e2))) (e1 - e2)) / m2,
       Z.min (fexp prec emax (Zdigits2 m1 + e1 - (Zdigits2 m2 + e2))) (e1 - e2),
       l).
Proof.
  unfold SFdiv_core_binary.
  set (e' := Z.min (fexp prec emax (Zdigits2 m1 + e1 - (Zdigits2 m2 + e2))) (e1 - e2)).
  assert (Hs : 0 <= e1 - e2 - e') by (unfold e'; lia).
  assert (M : match e1 - e2 - e' with
              | 0 => m1
              | Z.pos _ => Z.shiftl m1 (e1 - e2 - e')
              | Z.neg _ => 0
              end = m1 * 2 ^ (e1 - e2 - e')).
  { destruct (e1 - e2 - e') as [|p|p] eqn:D; [lia | | lia].
    rewrite Z.shiftl_mul_pow2 by lia. reflexivity. }
  rewrite M. unfold Z.div.
  destruct (Z.div_eucl (m1 * 2 ^ (e1 - e2 - e')) m2) as [q r].
  eexists. reflexivity.
Qed.

(** *** Rounding yields no [NaN] *)

Lemma binary_round_aux_signed (sx : bool) (mx ex : Z) (lx : location) :
  0 <= mx -> SFsigned sx (binary_round_aux prec emax sx mx ex lx).
Proof.
  intros P. unfold binary_round_aux.
  destruct (@shr_fexp_spec mx ex lx P) as (A1 & _).
  destruct (shr_fexp prec emax mx ex lx) as [mrs' e']. cbn [fst] in A1.
  assert (P1 : 0 <= shr_m mrs').
  { rewrite A1. apply Z.div_pos; [lia|]. apply Z.pow_pos_nonneg; unfold droppedBits; lia. }
  set (m2 := round_nearest_even (shr_m mrs') (loc_of_shr_record mrs')).
  assert (P2 : 0 <= m2) by (destruct (round_nearest_even_cases (shr_m mrs') (loc_of_shr_record mrs')); lia).
  destruct (@shr_fexp_spec m2 e' loc_Exact P2) as (B1 & _).
  destruct (shr_fexp prec emax m2 e' loc_Exact) as [mrs'' e'']. cbn [fst] in B1.
  assert (P3 : 0 <= shr_m mrs'').
  { rewrite B1. apply Z.div_pos; [lia|]. apply Z.pow_pos_nonneg; unfold droppedBits; lia. }
  destruct (shr_m mrs'') as [|m|m]; [reflexivity | | lia].
  destruct (e'' <=? emax - prec); reflexivity.
Qed.

Lemma binary_round_signed (sx : bool) (m : positive) (e : Z) :
  SFsigned sx (binary_round prec emax sx m e).
Proof.
  unfold binary_round. destruct (shl_align m e _) as [mz ez].
  apply binary_round_aux_signed. lia.
Qed.

Lemma binary_normalize_not_nan (m e : Z) (sz : bool) :
  binary_normalize prec emax m e sz <> S754_nan.
Proof.
  destruct m as [|p|p]; cbn [binary_normalize]; [discriminate | |].
  - generalize (binary_round_signed false p e). destruct (binary_round _ _ _ _ _); cbn; congruence.
  - generalize (binary_round_signed true p e). destruct (binary_round _ _ _ _ _); cbn; congruence.
Qed.

Lemma SFsub_finite (a b : spec_float) :
  SFfinite a -> SFfinite b -> SFsub prec emax a b <> S754_nan.
Proof.
  destruct a as [sa|sa| |sa ma ea], b as [sb|sb| |sb mb eb]; cbn [SFfinite];
    intros A B; try contradiction; cbn [SFsub]; try discriminate.
  - destruct sa, sb; discriminate.
  - apply binary_normalize_not_nan.
Qed.

Lemma SFsquare_number (a : spec_float) :
  a <> S754_nan -> SFnumber (SFmul prec emax a a).
Proof.
  destruct a as [s|s| |s m e]; intros A; cbn [SFmul SFnumber]; try congruence;
    try (destruct s; reflexivity).
  generalize (@binary_round_aux_signed (xorb s s) (Zpos (m * m)) (e + e) loc_Exact ltac:(lia)).
  rewrite xorb_nilpotent.
  destruct (binary_round_aux _ _ _ _ _ _); cbn; auto.
Qed.

Lemma SFadd_number (a b : spec_float) :
  SFnumber a -> SFnumber b -> SFnumber (SFadd prec emax a b).
Proof.
  destruct a as [sa|sa| |sa ma ea], b as [sb|sb| |sb mb eb]; cbn [SFnumber];
    intros A B; subst; try contradiction; cbn [SFadd SFnumber]; try reflexivity; try exact I.
  - destruct sa, sb; exact I.
  - cbn [cond_Zopp Z.add binary_normalize].
    generalize (binary_round_signed false
      (fst (shl_align ma ea (Z.min ea eb)) + fst (shl_align mb eb (Z.min ea eb))) (Z.min ea eb)).
    destruct (binary_round _ _ _ _ _); cbn; auto.
Qed.

Lemma SFsqrt_number (a : spec_float) : SFnumber a -> SFnumber (SFsqrt prec emax a).
Proof.
  destruct a as [s|s| |s m e]; cbn [SFnumber]; intros A; subst; try contradiction;
    cbn [SFsqrt SFnumber]; try reflexivity; try exact I.
  unfold SFsqrt_core_binary.
  set (m' := match _ with 0 => Z.pos m | Z.pos _ => Z.shiftl (Z.pos m) _ | Z.neg _ => 0 end).
  generalize (Z.sqrtrem_sqrt m'). destruct (Z.sqrtrem m') as [q r]. cbn [fst]. intros ->.
  generalize (@binary_round_aux_signed false (Z.sqrt m')
     (Z.min (fexp prec emax (Z.div2 (Zdigits2 (Z.pos m) + e + 1))) (Z.div2 e))
     (if r =? 0 then loc_Exact else loc_Inexact (if r <=? Z.sqrt m' then Lt else Gt))
     (Z.sqrt_nonneg m')).
  destruct (binary_round_aux _ _ _ _ _ _); cbn; auto.
Qed.

Lemma SFdiv_core_binary_nonneg (m1 m2 : positive) (e1 e2 : Z) :
  0 <= fst (fst (SFdiv_core_binary prec emax (Zpos m1) e1 (Zpos m2) e2)).
Proof.
  destruct (SFdiv_core_binary_spec (Zpos m1) e1 (Zpos m2) e2) as (l & ->). cbn [fst].
  apply Z.div_pos; [|lia]. apply Z.mul_nonneg_nonneg; [lia|].
  apply Z.pow_nonneg. lia.
Qed.

(** The quotient of a number that is not below zero by a positive one:
    [NaN] exactly when both are infinite. *)
Lemma SFdiv_number (a b : spec_float) :
  SFnumber a -> SFpositive b ->
  (SFdiv prec emax a b = S754_nan <-> a = S754_infinity false /\ b = S754_infinity false) /\
  (SFdiv prec emax a b <> S754_nan -> SFnumber (SFdiv prec emax a b)).
Proof.
  destruct a as [sa|sa| |sa ma ea], b as [sb|sb| |sb mb eb]; cbn [SFnumber SFpositive];
    intros A B; subst; try contradiction; cbn [SFdiv xorb SFnumber];
    try (split; [split; [discriminate | intros (? & ?); discriminate] | intros _; first [exact I | reflexivity]]).
  - split; [split; [auto | reflexivity] | congruence].
  - generalize (SFdiv_core_binary_nonneg ma mb ea eb).
    destruct (SFdiv_core_binary prec emax (Z.pos ma) ea (Z.pos mb) eb) as [[mz ez] lz]. cbn [fst].
    intros P. generalize (@binary_round_aux_signed false mz ez lz P).
    destruct (binary_round_aux _ _ _ _ _ _); cbn; intros Hs; try contradiction;
      (split; [split; [discriminate | intros (? & ?); discriminate] | intros _; first [exact I | exact Hs]]).
Qed.

Lemma SFnumber_leb (a : spec_float) : SFnumber a -> SFleb (S754_zero false) a = true.
Proof. destruct a as [s|s| |s m e]; cbn; intros A; subst; try contradiction; reflexivity. Qed.

Lemma SFnumber_nonneg (a : spec_float) : SFnumber a -> SFnonneg a.
Proof. destruct a; cbn; auto. Qed.

(** *** The sum of a double and a multiple of it *)

Lemma shl_align_spec (mx : positive) (ex ex' : Z) :
  snd (shl_align mx ex ex') = Z.min ex ex' /\
  Zpos (fst (shl_align mx ex ex')) = Zpos mx * 2 ^ (ex - Z.min ex ex').
Proof.
  unfold shl_align. destruct (ex' - ex) as [|d|d] eqn:D; cbn [fst snd].
  - rewrite Z.min_l by lia. rewrite Z.sub_diag. split; lia.
  - rewrite Z.min_l by lia. rewrite Z.sub_diag. split; lia.
  - rewrite Z.min_r by lia. split; [reflexivity|].
    change (Pos.iter xO mx d) with (shift_pos d mx).
    rewrite shift_pos_correct, Z.pow_pos_fold.
    replace (ex - ex') with (Z.pos d) by lia. lia.
Qed.

Lemma SFadd_same_sign (s : bool) (mx : positive) (ex : Z) (my : positive) (ey : Z) :
  SFadd prec emax (S754_finite s mx ex) (S754_finite s my ey) =
    binary_round prec emax s
      (fst (shl_align mx ex (Z.min ex ey)) + fst (shl_align my ey (Z.min ex ey)))%positive
      (Z.min ex ey).
Proof. unfold SFadd. destruct s; reflexivity. Qed.

Lemma binary_round_enough (s : bool) (M : positive) (e : Z) :
  e <= fexp prec emax (Zdigits2 (Zpos M) + e) ->
  binary_round prec emax s M e = binary_round_aux prec emax s (Zpos M) e loc_Exact.
Proof.
  intros L. unfold binary_round, shl_align. cbn [Zdigits2] in L.
  destruct (fexp prec emax (Z.pos (digits2_pos M) + e) - e) as [|d|d] eqn:D; try reflexivity.
  lia.
Qed.

Lemma log2_52 (m : Z) : Z.log2 m = 52 -> 2 ^ 52 <= m < 2 ^ 53.
Proof.
  intros L. assert (P : 0 < m).
  { destruct m; cbn in L; try lia. }
  generalize (Z.log2_spec m P). rewrite L. cbn. lia.
Qed.

Lemma nearMultiple_add (s : bool) (mc : positive) (ec j E t : Z) (f : spec_float) :
  Z.log2 (Zpos mc) = 52 -> -1074 <= ec <= 960 ->
  1 <= j -> 0 <= E -> 1 <= t <= 4 ->
  (j + 1) * 2 ^ 53 + E <= 2 ^ (53 + t) ->
  nearMultiple s mc ec j E f ->
  nearMultiple s mc ec (j + 1) (E + 2 ^ t) (SFadd prec emax f (S754_finite s mc ec)).
Proof.
  intros Lc Rc J E0 T B (m & e & -> & Le & Lm & A).
  apply log2_52 in Lc. apply log2_52 in Lm.
  rewrite SFadd_same_sign. rewrite Z.min_r by lia.
  destruct (shl_align_spec m e ec) as (_ & Hx). destruct (shl_align_spec mc ec ec) as (_ & Hy).
  rewrite Z.min_r in Hx by lia. rewrite Z.min_r, Z.sub_diag in Hy by lia.
  set (M := (fst (shl_align m e ec) + fst (shl_align mc ec ec))%positive).
  assert (HM : Zpos M = Zpos m * 2 ^ (e - ec) + Zpos mc) by (unfold M; lia).
  assert (P2 : 1 <= 2 ^ (e - ec)) by (apply (Z.pow_le_mono_r 2 0); lia).
  assert (Mlo : 2 ^ 53 <= Zpos M) by (change (2 ^ 53) with (2 ^ 52 + 2 ^ 52); nia).
  assert (Mhi : Zpos M < 2 ^ (53 + t)) by nia.
  assert (L1 : 53 <= Z.log2 (Zpos M)) by (apply Z.log2_le_pow2; lia).
  assert (L2 : Z.log2 (Zpos M) < 53 + t) by (apply Z.log2_lt_pow2; lia).
  rewrite binary_round_enough
    by (rewrite fexp_double, Zdigits2_log2 by lia; lia).
  assert (K : droppedBits (Zpos M) ec = Z.log2 (Zpos M) - 52).
  { unfold droppedBits. rewrite fexp_double, Zdigits2_log2 by lia. lia. }
  destruct (@binary_round_aux_faithful s (Zpos M) ec loc_Exact)
    as (m3 & e3 & m2 & -> & C & _ & Le3 & V & Can); try lia.
  rewrite K in *.
  set (k := Z.log2 (Z.pos M) - 52) in *.
  assert (Can' : fexp prec emax (Zdigits2 (Z.pos m3) + e3) = e3).
  { apply Can. rewrite fexp_double, Zdigits2_log2 by lia. lia. }
  rewrite fexp_double, Zdigits2_log2 in Can' by lia.
  exists m3, e3. split; [reflexivity|]. split; [lia|]. split; [lia|].
  assert (Pk : 0 < 2 ^ k) by (apply Z.pow_pos_nonneg; lia).
  assert (Pt : 2 ^ k <= 2 ^ t) by (apply Z.pow_le_mono_r; lia).
  assert (V' : Zpos m3 * 2 ^ (e3 - ec) = m2 * 2 ^ k).
  { rewrite <- V. replace (e3 - ec) with (e3 - (ec + k) + k) by lia.
    rewrite Z.pow_add_r by lia. lia. }
  rewrite V'.
  assert (Dv := Z.div_mod (Zpos M) (2 ^ k) ltac:(lia)).
  assert (Dr := Z.mod_pos_bound (Zpos M) (2 ^ k) Pk).
  destruct C as [-> | ->]; nia.
Qed.

Lemma nearMultiple_first (s : bool) (mc : positive) (ec : Z) :
  Z.log2 (Zpos mc) = 52 ->
  nearMultiple s mc ec 1 0 (SFadd prec emax (S754_zero false) (S754_finite s mc ec)).
Proof.
  intros L. exists mc, ec. split; [reflexivity|]. split; [lia|]. split; [exact L|].
  rewrite Z.sub_diag. lia.
Qed.

Lemma nearMultiple_step (s : bool) (mc : positive) (ec j E t j' E' : Z) (f : spec_float) :
  Z.log2 (Zpos mc) = 52 -> -1074 <= ec <= 960 ->
  nearMultiple s mc ec j E f ->
  1 <= j -> 0 <= E -> 1 <= t <= 4 ->
  (j + 1) * 2 ^ 53 + E <= 2 ^ (53 + t) ->
  j' = j + 1 -> E' = E + 2 ^ t ->
  nearMultiple s mc ec j' E' (SFadd prec emax f (S754_finite s mc ec)).
Proof. intros Lc Rc N J E0 T B -> ->. apply nearMultiple_add; assumption. Qed.

(** *** The quotient by the number of copies *)

Ltac evaluate_power :=
  match goal with
  | |- context [2 ^ (- ?a - 49)] =>
      let v := eval vm_compute in (2 ^ (- a - 49)) in
      change (2 ^ (- a - 49)) with v
  end.

Lemma nearMultiple_div (s : bool) (mc : positive) (ec n E : Z) (mn : positive) (en : Z) (f : spec_float) :
  Z.log2 (Zpos mc) = 52 -> -1060 <= ec <= 960 ->
  lengthDouble n mn en E ->
  nearMultiple s mc ec n E f ->
  nearConstant s mc ec (SFdiv prec emax f (S754_finite false mn en)).
Proof.
  intros Lc Rc N (m & e & -> & Le & Lm & A).
  assert (Ln : Z.log2 (Zpos mn) = 52 /\ -52 <= en <= -49 /\ 0 <= E <= 64 /\ 1 <= n <= 8).
  { unfold lengthDouble in N. cbn [In] in N.
    repeat (destruct N as [N|N];
            [injection N as <- <- <- <-; split; [reflexivity | lia]|]).
    contradiction. }
  destruct Ln as (Ln & Rn & RE & Rnn).
  unfold SFdiv.
  destruct (SFdiv_core_binary_spec (Zpos m) e (Zpos mn) en) as (l & ->).
  rewrite !fexp_double, !Zdigits2_log2, Lm, Ln by lia.
  replace (Z.min (Z.max (52 + 1 + e - (52 + 1 + en) - 53) (-1074)) (e - en)) with (e - en - 53) by lia.
  replace (e - en - (e - en - 53)) with 53 by lia.
  rewrite xorb_false_r.
  apply log2_52 in Lc. apply log2_52 in Lm. apply log2_52 in Ln.
  assert (D : 0 <= e - ec <= 4).
  { split; [lia|]. destruct (Z_lt_le_dec (e - ec) 5) as [|G]; [lia|].
    assert (2 ^ 5 <= 2 ^ (e - ec)) by (apply Z.pow_le_mono_r; lia). nia. }
  set (q := Zpos m * 2 ^ 53 / Zpos mn).
  assert (Q : 2 ^ 52 <= q < 2 ^ 54).
  { unfold q. split.
    - apply Z.div_le_lower_bound; [lia|]. change (2 ^ 53) with (2 * 2 ^ 52). nia.
    - apply Z.div_lt_upper_bound; [lia|]. change (2 ^ 54) with (2 * 2 ^ 53).
      change (2 ^ 53) with (2 * 2 ^ 52) at 1. nia. }
  assert (L1 : 52 <= Z.log2 q) by (apply Z.log2_le_pow2; lia).
  assert (L2 : Z.log2 q < 54) by (apply Z.log2_lt_pow2; lia).
  assert (K : droppedBits q (e - en - 53) = Z.log2 q - 52).
  { unfold droppedBits. rewrite fexp_double, Zdigits2_log2 by lia. lia. }
  destruct (@binary_round_aux_faithful s q (e - en - 53) l)
    as (m3 & e3 & m2 & -> & C & _ & Le3 & V & _); try lia.
  rewrite K in *.
  exists m3, e3. split; [reflexivity|]. split; [lia|].
  replace (e3 - (ec - 4))
    with (e3 - (e - en - 53 + (Z.log2 q - 52)) + ((Z.log2 q - 52) + ((e - ec) + (- en - 49)))) by lia.
  rewrite !Z.pow_add_r by lia. rewrite Z.mul_assoc, V.
  assert (Hk : 2 ^ (Z.log2 q - 52) = 1 \/ 2 ^ (Z.log2 q - 52) = 2).
  { assert (Cq : Z.log2 q = 52 \/ Z.log2 q = 53) by lia.
    destruct Cq as [->| ->]; [left | right]; reflexivity. }
  assert (Hd : 2 ^ (e - ec) = 1 \/ 2 ^ (e - ec) = 2 \/ 2 ^ (e - ec) = 4 \/
               2 ^ (e - ec) = 8 \/ 2 ^ (e - ec) = 16).
  { assert (Cd : e - ec = 0 \/ e - ec = 1 \/ e - ec = 2 \/ e - ec = 3 \/ e - ec = 4) by lia.
    destruct Cd as [->|[->|[->|[->| ->]]]]; cbn; lia. }
  unfold q in *. clear q K V Le3 L1 L2 Q Ln Rn RE Rnn.
  change (2 ^ 53) with 9007199254740992 in *.
  change (2 ^ 52) with 4503599627370496 in *.
  set (P1 := 2 ^ (Z.log2 (Z.pos m * 9007199254740992 / Z.pos mn) - 52)) in *.
  set (P2 := 2 ^ (e - ec)) in *.
  clearbody P1 P2.
  unfold lengthDouble in N. cbn [In] in N.
  repeat (destruct N as [N|N];
          [injection N as <- <- <- <-; evaluate_power;
           destruct Hk as [-> | ->];
           destruct Hd as [->|[->|[->|[->| ->]]]];
           destruct C as [-> | ->]; Z.div_mod_to_equations; lia|]).
  contradiction.
Qed.

(** *** Values *)

Lemma powerRZ_split (e w : Z) :
  w <= e -> powerRZ 2 e = (IZR (2 ^ (e - w)) * powerRZ 2 w)%R.
Proof.
  intros L. replace e with ((e - w) + w) at 1 by lia.
  rewrite powerRZ_add by lra. f_equal.
  destruct (e - w) as [|p|p] eqn:D; [reflexivity | | lia].
  symmetry. apply (Zpower_pos_powerRZ 2 p).
Qed.

Lemma nearConstant_real (s : bool) (mc : positive) (ec : Z) (f : spec_float) :
  Z.log2 (Zpos mc) = 52 ->
  nearConstant s mc ec f ->
  (Rabs (SF2R f - SF2R (S754_finite s mc ec)) <=
   tolerance * Rabs (SF2R (S754_finite s mc ec)))%R.
Proof.
  intros Lc (m & e & -> & Le & A). apply log2_52 in Lc.
  cbn [SF2R].
  rewrite (@powerRZ_split e (ec - 4)) by lia.
  rewrite (@powerRZ_split ec (ec - 4)) by lia.
  replace (ec - (ec - 4)) with 4 by lia.
  assert (B : (0 < powerRZ 2 (ec - 4))%R) by (apply powerRZ_lt; lra).
  set (bw := powerRZ 2 (ec - 4)) in *.
  set (a := Zpos m * 2 ^ (e - (ec - 4))) in *.
  assert (E1 : (IZR (cond_Zopp s (Z.pos m)) * (IZR (2 ^ (e - (ec - 4))) * bw)
                - IZR (cond_Zopp s (Z.pos mc)) * (IZR (2 ^ 4) * bw)
                = IZR (cond_Zopp s (a - 16 * Zpos mc)) * bw)%R).
  { unfold a. destruct s; cbn [cond_Zopp];
      rewrite ?opp_IZR, ?minus_IZR, ?mult_IZR; change (IZR (2 ^ 4)) with 16%R; ring. }
  assert (E2 : (IZR (cond_Zopp s (Z.pos mc)) * (IZR (2 ^ 4) * bw)
                = IZR (cond_Zopp s (16 * Zpos mc)) * bw)%R).
  { destruct s; cbn [cond_Zopp];
      rewrite ?opp_IZR, ?mult_IZR; change (IZR (2 ^ 4)) with 16%R; ring. }
  rewrite E1, E2, !Rabs_mult, (Rabs_pos_eq bw) by lra.
  assert (A1 : (Rabs (IZR (cond_Zopp s (a - 16 * Z.pos mc))) <= 256)%R).
  { rewrite <- abs_IZR. apply IZR_le. destruct s; cbn [cond_Zopp]; lia. }
  assert (A2 : (72057594037927936 <= Rabs (IZR (cond_Zopp s (16 * Z.pos mc))))%R).
  { rewrite <- abs_IZR. apply IZR_le. destruct s; cbn [cond_Zopp]; lia. }
  unfold tolerance.
  set (u := Rabs (IZR (cond_Zopp s (a - 16 * Z.pos mc)))) in *.
  set (v := Rabs (IZR (cond_Zopp s (16 * Z.pos mc)))) in *.
  assert (G : (u * bw <= 256 * bw)%R) by (apply Rmult_le_compat_r; lra).
  assert (G2 : (256 * bw <= / 281474976710656 * v * bw)%R).
  { apply Rmult_le_compat_r; lra. }
  lra.
Qed.

Lemma ordinary_cases (c : float) :
  ordinary c ->
  (exists s, Prim2SF c = S754_zero s) \/
  (exists s m e, Prim2SF c = S754_finite s m e /\ Z.log2 (Zpos m) = 52 /\ -1052 <= e <= 948).
Proof.
  intros [Hz|(Lo & Hi)].
  - left. rewrite eqb_spec in Hz. change (Prim2SF 0) with (S754_zero false) in Hz.
    destruct (Prim2SF c) as [s|s| |s m e];
      try discriminate Hz; try (destruct s; discriminate Hz).
    exists s. reflexivity.
  - right. rewrite leb_spec, abs_spec in Lo, Hi.
    assert (V := Prim2SF_valid c).
    change (Prim2SF 0x1p-1000) with (S754_finite false 4503599627370496 (-1052)) in Lo.
    change (Prim2SF 0x1p+1000) with (S754_finite false 4503599627370496 948) in Hi.
    destruct (Prim2SF c) as [s|s| |s m e]; try discriminate Lo; try discriminate Hi.
    exists s, m, e. split; [reflexivity|].
    unfold SFleb, SFcompare, SFabs in Lo, Hi.
    assert (Le : -1052 <= e).
    { destruct (Z.compare_spec (-1052) e); try lia; discriminate Lo. }
    assert (He : e <= 948).
    { destruct (Z.compare_spec e 948); try lia; discriminate Hi. }
    cbn [valid_binary] in V. unfold SpecFloat.bounded, canonical_mantissa in V.
    apply andb_prop in V. destruct V as (V & _). apply Z.eqb_eq in V.
    rewrite fexp_double in V.
    change (Z.pos (digits2_pos m)) with (Zdigits2 (Zpos m)) in V.
    rewrite Zdigits2_log2 in V by lia. lia.
Qed.

Lemma closeTo_zero (a c : float) (s : bool) :
  Prim2SF a = S754_zero false -> Prim2SF c = S754_zero s -> closeTo a c.
Proof.
  intros A C. unfold closeTo, isFinite, value. rewrite A, C. cbn [SF2R].
  split; [exact I|]. rewrite Rminus_diag, Rabs_R0. lra.
Qed.

Lemma closeTo_nearConstant (a c : float) (s : bool) (mc : positive) (ec : Z) :
  Prim2SF c = S754_finite s mc ec -> Z.log2 (Zpos mc) = 52 ->
  nearConstant s mc ec (Prim2SF a) -> closeTo a c.
Proof.
  intros C L N. unfold closeTo, isFinite, value. rewrite C. split.
  - destruct N as (m & e & -> & _). exact I.
  - apply nearConstant_real; assumption.
Qed.

End Rounding.

(** ** The openness ratio of a hand with finite coordinates *)

Lemma double_infinity_spec (a : float) :
  a = infinity <-> Prim2SF a = S754_infinity false.
Proof.
  split; [intros ->; reflexivity|].
  intros E. apply Prim2SF_inj. rewrite E. reflexivity.
Qed.

Lemma number_nonneg (a : float) : number a -> nonneg a.
Proof. apply SFnumber_nonneg. Qed.

Lemma double_add_number (a b : float) : number a -> number b -> number (a + b)%float.
Proof. unfold number. rewrite add_spec. apply SFadd_number. Qed.

(** The quotient by a finite positive double is a number. *)
Lemma double_div_number (a b : float) :
  number a -> strictlyPositive b -> isFinite b -> number (a / b)%float.
Proof.
  unfold number, strictlyPositive, isFinite. rewrite div_spec. intros A B F.
  destruct (@SFdiv_number _ _ A B) as (N & M). apply M.
  intros D. apply N in D. destruct D as (_ & D). rewrite D in F. exact F.
Qed.

(** The distance between two landmarks with finite coordinates is a number,
    possibly [Infinity]. *)
Lemma getDist_number (p q : Landmark float) :
  finiteLandmark p -> finiteLandmark q -> number (getDist p q).
Proof.
  intros (P0 & P1) (Q0 & Q1). unfold getDist, number.
  cbn [sqrt square add sub float_number].
  rewrite sqrt_spec, add_spec, !mul_spec, !sub_spec.
  apply SFsqrt_number, SFadd_number; apply SFsquare_number, SFsub_finite; assumption.
Qed.

Lemma totalDists_number (wrist : Landmark float) (lms : list (Landmark float)) :
  length lms = 21%nat ->
  finiteLandmark wrist ->
  Forall finiteLandmark lms ->
  exists totals,
    totalDists wrist lms = Some totals /\ number (fst totals) /\ number (snd totals).
Proof.
  intros L W F.
  do 21 (destruct lms as [|? lms]; [discriminate L|]).
  destruct lms; [|discriminate L].
  repeat match goal with
         | H : Forall _ (_ :: _) |- _ => apply Forall_cons_iff in H; destruct H as (? & H)
         end.
  eexists. split; [reflexivity|]. cbn [fst snd].
  split; repeat (apply double_add_number; [|apply getDist_number; assumption]);
    vm_compute; exact I.
Qed.

(** [Infinity] is truthy. *)
Lemma truthy_infinity (a : float) : a = infinity -> truthy a = true.
Proof. intros ->. reflexivity. Qed.

(** The guarded denominator is [Infinity] exactly when the average base
    distance is. *)
Lemma denominator_infinity (a : float) : denominator a = infinity <-> a = infinity.
Proof.
  unfold denominator, or_else. destruct (truthy a) eqn:T; [reflexivity|].
  split.
  - intros E. apply double_infinity_spec in E. discriminate E.
  - intros E. rewrite (truthy_infinity E) in T. discriminate T.
Qed.

(** The ratio of two totals that are numbers: [NaN] exactly when both
    averages are [Infinity], and otherwise not below 0. *)
Lemma ratioOf_number (totals : float * float) :
  number (fst totals) -> number (snd totals) ->
  (isNaN (ratioOf totals) <->
     snd totals /! of_Z 4 = infinity /\ fst totals /! of_Z 4 = infinity) /\
  (~ isNaN (ratioOf totals) -> (0 <=? ratioOf totals)%float = true).
Proof.
  intros B T. unfold ratioOf. cbv zeta.
  assert (P4 : strictlyPositive (of_Z 4)) by (vm_compute; reflexivity).
  assert (F4 : isFinite (of_Z 4)) by (vm_compute; exact I).
  assert (NB := @double_div_number _ _ B P4 F4).
  assert (NT := @double_div_number _ _ T P4 F4).
  assert (PD := @denominator_positive_double _ (@number_nonneg _ NB)).
  unfold number in NT. unfold strictlyPositive in PD.
  destruct (@SFdiv_number _ _ NT PD) as (N & M).
  unfold isNaN. cbn [div float_number]. rewrite div_spec. unfold SF64div.
  split.
  - rewrite N, <- !double_infinity_spec, denominator_infinity. reflexivity.
  - intros D. rewrite leb_spec, div_spec, double_zero_spec. apply SFnumber_leb, M, D.
Qed.

(** C8 (amended).  For a hand of 21 landmarks every landmark the computation
    reads is there, so the ratio is computed.  Whatever the coordinates, its
    denominator [avgBaseDist || 1] is never [0], [-0] or [NaN], being 1 when
    the average base distance is 0, and the ratio is never below 0.  When all
    coordinates are finite, the ratio is [NaN] exactly when the average tip
    distance and the average base distance have both overflowed to
    [Infinity]; in every other case it is a number that is not negative
    (possibly [Infinity]). *)
Theorem openness_ratio_well_defined (hand : Prediction float) :
  length (landmarks hand) = 21%nat ->
  denominator (of_Z 0 : float) = of_Z 1 /\
  exists wrist totals,
    nth_error (landmarks hand) 0 = Some wrist /\
    totalDists wrist (landmarks hand) = Some totals /\
    truthy (denominator (fst totals /! of_Z 4)) = true /\
    rawRatio wrist (landmarks hand) = Some (ratioOf totals) /\
    (ratioOf totals <? 0)%float = false /\
    (Forall finiteLandmark (landmarks hand) ->
       (isNaN (ratioOf totals) <->
          snd totals /! of_Z 4 = infinity /\ fst totals /! of_Z 4 = infinity) /\
       (~ isNaN (ratioOf totals) -> (0 <=? ratioOf totals)%float = true)).
Proof.
  intros L. split; [reflexivity|].
  destruct (landmarks hand) as [|wrist rest] eqn:E; [discriminate L|].
  destruct (totalDists_nonneg_double wrist (wrist :: rest) L) as (totals & T & Hb & Ht).
  exists wrist, totals. split; [reflexivity|]. split; [exact T|].
  split; [apply denominator_truthy|]. split; [unfold rawRatio; rewrite T; reflexivity|].
  split; [apply double_nonneg_not_negative, ratioOf_nonneg_double; assumption|].
  intros F.
  destruct (@totalDists_number wrist (wrist :: rest) L) as (totals' & T' & Nb & Nt);
    [apply (Forall_inv F) | exact F |].
  rewrite T in T'. injection T' as <-.
  apply ratioOf_number; assumption.
Qed.

(** ** The smoothers on a constant input, on doubles *)

Ltac sum_of_copies L :=
  lazymatch goal with
  | |- nearMultiple _ _ _ 1 0 _ => apply nearMultiple_first; exact L
  | |- nearMultiple ?s ?mc ?ec 8 64 _ =>
      apply (@nearMultiple_step s mc ec 7 48 4 8 64 _ L);
      [lia | sum_of_copies L | lia | lia | lia | cbn; lia | reflexivity | reflexivity]
  | |- nearMultiple ?s ?mc ?ec ?j ?E _ =>
      let j1 := eval vm_compute in (j - 1)%Z in
      let E1 := eval vm_compute in (E - 8)%Z in
      apply (@nearMultiple_step s mc ec j1 E1 3 j E _ L);
      [lia | sum_of_copies L | lia | lia | lia | cbn; lia | reflexivity | reflexivity]
  end.

Ltac mean_of_copies C L n E :=
  cbn [repeat fold_left length add div float_number];
  rewrite div_spec, ?add_spec, C;
  change (Prim2SF (of_Z 0)) with (S754_zero false);
  match goal with
  | |- context [Prim2SF (of_Z (Z.of_nat ?k))] =>
      let v := eval vm_compute in (Prim2SF (@of_Z float float_number (Z.of_nat k))) in
      change (Prim2SF (of_Z (Z.of_nat k))) with v
  end;
  apply (@nearMultiple_div _ _ _ n E _ _ _ L);
  [lia | unfold lengthDouble; cbn [In]; auto 10 | sum_of_copies L].

(** The mean of [k] copies of an ordinary double, for every length [k] the
    buffers take, as the smoothers compute it: [k - 1] rounded additions and
    one rounded division. *)
Lemma mean_close (k : nat) (c : float) :
  (1 <= k <= 8)%nat -> ordinary c -> closeTo (smoothedRatio (repeat c k)) c.
Proof.
  intros K O.
  assert (Ck : (k = 1 \/ k = 2 \/ k = 3 \/ k = 4 \/ k = 5 \/ k = 6 \/ k = 7 \/ k = 8)%nat)
    by lia.
  clear K. unfold smoothedRatio.
  destruct (ordinary_cases O) as [(s & C)|(s & mc & ec & C & L & Rg)].
  - apply closeTo_zero with s; [|exact C].
    destruct Ck as [->|[->|[->|[->|[->|[->|[->| ->]]]]]]];
      cbn [repeat fold_left length add div float_number];
      rewrite div_spec, ?add_spec, C; destruct s; vm_compute; reflexivity.
  - apply closeTo_nearConstant with s mc ec; [exact C | exact L |].
    destruct Ck as [->|[->|[->|[->|[->|[->|[->| ->]]]]]]].
    + mean_of_copies C L 1%Z 0%Z.
    + mean_of_copies C L 2%Z 8%Z.
    + mean_of_copies C L 3%Z 16%Z.
    + mean_of_copies C L 4%Z 24%Z.
    + mean_of_copies C L 5%Z 32%Z.
    + mean_of_copies C L 6%Z 40%Z.
    + mean_of_copies C L 7%Z 48%Z.
    + mean_of_copies C L 8%Z 64%Z.
Qed.

Lemma avgPos_coordinates (a : list (Point float)) :
  forall acc : Point float,
    x (fold_left (fun acc curr => {| x := x acc +! x curr; y := y acc +! y curr |}) a acc) =
      fold_left add (map (@x float) a) (x acc) /\
    y (fold_left (fun acc curr => {| x := x acc +! x curr; y := y acc +! y curr |}) a acc) =
      fold_left add (map (@y float) a) (y acc).
Proof.
  induction a as [|p a IH]; intros acc; [split; reflexivity|].
  cbn [fold_left map]. destruct (IH {| x := x acc +! x p; y := y acc +! y p |}) as (Hx & Hy).
  rewrite Hx, Hy. split; reflexivity.
Qed.

(** The position smoother averages the two coordinates separately. *)
Lemma smoothedPosition_copies (c : Point float) (k : nat) :
  x (smoothedPosition (repeat c k)) = smoothedRatio (repeat (x c) k) /\
  y (smoothedPosition (repeat c k)) = smoothedRatio (repeat (y c) k).
Proof.
  unfold smoothedPosition, smoothedRatio, avgPos. cbn [x y].
  destruct (avgPos_coordinates (repeat c k) {| x := of_Z 0; y := of_Z 0 |}) as (Hx & Hy).
  rewrite Hx, Hy, !map_repeat, !repeat_length. split; reflexivity.
Qed.


(** ** A constant input from empty buffers, on doubles *)

Lemma push_shift_repeat {A} (cap k : nat) (c : A) :
  (0 < cap)%nat -> (k <= cap)%nat ->
  push_shift cap (repeat c k) c = repeat c (Nat.min (S k) cap).
Proof.
  intros C K. destruct (Nat.eq_dec k cap) as [->|N].
  - rewrite push_shift_full by (rewrite ?repeat_length; lia).
    rewrite Nat.min_r by lia. destruct cap; [lia|]. cbn [repeat tl]. apply repeat_snoc.
  - rewrite push_shift_room by (rewrite repeat_length; lia).
    rewrite Nat.min_l by lia. apply repeat_snoc.
Qed.

Lemma constant_run (c : Point float) (r : float) (ts : list (Tick float)) :
  ordinary (x c) -> ordinary (y c) -> ordinary r ->
  forall (s : Store float) (kp kr : nat),
    posHistory s = repeat c kp -> (kp <= 8)%nat ->
    ratioHistory s = repeat r kr -> (kr <= 5)%nat ->
    Forall (fun t => observation t = Some (c, r)) ts ->
    posHistory (fst (run_ticks ts s)) = repeat c (Nat.min (kp + length ts) 8) /\
    ratioHistory (fst (run_ticks ts s)) = repeat r (Nat.min (kr + length ts) 5) /\
    length (gestures (snd (run_ticks ts s))) = length ts /\
    Forall (fun g => isDetected g = true /\
                     closeTo (x (position g)) (x c) /\ closeTo (y (position g)) (y c))
           (gestures (snd (run_ticks ts s))) /\
    Forall (fun m => closeTo m r) (gateInputs ts s).
Proof.
  intros Ox Oy Or. induction ts as [|t ts IH]; intros s kp kr Hp Kp Hr Kr F.
  - cbn. rewrite !Nat.add_0_r, !Nat.min_l by lia. repeat split; try assumption; constructor.
  - inversion F as [|? ? O F']; subst.
    destruct (@processTick_observation _ _ t c r s O) as (Pp & Pr & g & Hg & Hd & Hpos).
    rewrite Hp, push_shift_repeat in Pp by lia.
    rewrite Hr, push_shift_repeat in Pr by lia.
    destruct (IH _ _ _ Pp ltac:(lia) Pr ltac:(lia) F') as (I1 & I2 & I3 & I4 & I5).
    rewrite run_ticks_cons. cbn [fst snd length gateInputs].
    rewrite gestures_app, length_app, Hg, I1, I2, I3.
    rewrite (@gateInput_observation _ _ t c r s O), Hr, push_shift_repeat by lia.
    split; [f_equal; lia|]. split; [f_equal; lia|]. split; [reflexivity|]. split.
    + apply Forall_app. split; [|exact I4]. constructor; [|constructor].
      rewrite Hpos, Pp. destruct (smoothedPosition_copies c (Nat.min (S kp) 8)) as (Ex & Ey).
      rewrite Ex, Ey. split; [exact Hd|]. split; apply mean_close; (lia || assumption).
    + apply Forall_app. split; [|exact I5]. constructor; [|constructor].
      apply mean_close; (lia || assumption).
Qed.

(** X14.  On doubles the smoothers have no warm-up: they divide by the
    number of samples held, not by the window.  From empty buffers (after the
    component is mounted, or after a confirmed loss), over any run of
    observations that all feed the same raw position and the same raw ratio,
    zero or of magnitude between [2^-1000] and [2^1000]: the buffers hold as
    many copies as there were observations, up to their capacities; each tick
    sends one signal, with [isDetected = true] and each coordinate of its
    position a finite double within relative error [2^-48] of the input; and
    every smoothed ratio presented to the gate is within that tolerance of
    the raw ratio. *)
Theorem constant_input_tracked_from_first_tick
    (ts : list (Tick float)) (s : Store float) (c : Point float) (r : float) :
  posHistory s = [] -> ratioHistory s = [] ->
  Forall (fun t => observation t = Some (c, r)) ts ->
  ordinary (x c) -> ordinary (y c) -> ordinary r ->
  posHistory (fst (run_ticks ts s)) = repeat c (Nat.min (length ts) 8) /\
  ratioHistory (fst (run_ticks ts s)) = repeat r (Nat.min (length ts) 5) /\
  length (gestures (snd (run_ticks ts s))) = length ts /\
  Forall (fun g => isDetected g = true /\
                   closeTo (x (position g)) (x c) /\ closeTo (y (position g)) (y c))
         (gestures (snd (run_ticks ts s))) /\
  Forall (fun m => closeTo m r) (gateInputs ts s).
Proof.
  intros Hp Hr F Ox Oy Or.
  apply (@constant_run c r ts Ox Oy Or s 0 0); try assumption; lia.
Qed.

(** ** The order of doubles and the order of their values *)

Section Order.

Local Open Scope Z_scope.

Lemma canonical_bounds (m : positive) (e : Z) :
  SpecFloat.bounded prec emax m e = true ->
  Zpos m < 2 ^ 53 /\ -1074 <= e /\ (-1074 < e -> 2 ^ 52 <= Zpos m).
Proof.
  unfold SpecFloat.bounded, canonical_mantissa. intros B.
  apply andb_prop in B. destruct B as (B & _). apply Z.eqb_eq in B.
  rewrite fexp_double in B.
  change (Z.pos (digits2_pos m)) with (Zdigits2 (Zpos m)) in B.
  rewrite Zdigits2_log2 in B by lia.
  split; [apply Z.log2_lt_pow2; lia|]. split; [lia|].
  intros N. apply Z.log2_le_pow2; lia.
Qed.

Lemma finite_lt (m1 m2 : positive) (e1 e2 : Z) :
  SpecFloat.bounded prec emax m1 e1 = true ->
  SpecFloat.bounded prec emax m2 e2 = true ->
  e1 < e2 ->
  (IZR (Zpos m1) * powerRZ 2 e1 < IZR (Zpos m2) * powerRZ 2 e2)%R.
Proof.
  intros B1 B2 L.
  destruct (@canonical_bounds _ _ B1) as (U1 & E1 & _).
  destruct (@canonical_bounds _ _ B2) as (_ & _ & N2). specialize (N2 ltac:(lia)).
  rewrite (@powerRZ_split e2 e1) by lia.
  assert (P : (0 < powerRZ 2 e1)%R) by (apply powerRZ_lt; lra).
  rewrite <- Rmult_assoc, <- mult_IZR.
  apply Rmult_lt_compat_r; [exact P|]. apply IZR_lt.
  assert (2 ^ 1 <= 2 ^ (e2 - e1)) by (apply Z.pow_le_mono_r; lia).
  change (2 ^ 53) with (2 ^ 52 * 2 ^ 1) in U1. nia.
Qed.

(** On finite doubles, [SFcompare] is the comparison of the values. *)
Lemma SFcompare_value (a b : spec_float) :
  valid_binary a = true -> valid_binary b = true ->
  SFfinite a -> SFfinite b ->
  match SFcompare a b with
  | Some Lt => (SF2R a < SF2R b)%R
  | Some Eq => SF2R a = SF2R b
  | Some Gt => (SF2R b < SF2R a)%R
  | None => False
  end.
Proof.
  assert (Pw : forall e, (0 < powerRZ 2 e)%R) by (intros e; apply powerRZ_lt; lra).
  assert (Pm : forall m, (0 < IZR (Zpos m))%R) by (intros m; apply IZR_lt; lia).
  assert (Pv : forall m e, (0 < IZR (Zpos m) * powerRZ 2 e)%R)
    by (intros m e; apply Rmult_lt_0_compat; auto).
  destruct a as [sa|sa| |sa ma ea], b as [sb|sb| |sb mb eb]; unfold valid_binary; cbn [SFfinite SpecFloat.valid_binary];
    intros Va Vb Fa Fb; try contradiction; cbn [SFcompare SF2R].
  - reflexivity.
  - specialize (Pv mb eb). destruct sb; cbn [cond_Zopp];
      [change (Z.neg mb) with (- Z.pos mb); rewrite opp_IZR|]; lra.
  - specialize (Pv ma ea). destruct sa; cbn [cond_Zopp];
      [change (Z.neg ma) with (- Z.pos ma); rewrite opp_IZR|]; lra.
  - assert (Pa := Pv ma ea). assert (Pb := Pv mb eb).
    assert (Eqv : ea = eb -> forall c, Pos.compare_cont Eq ma mb = c ->
              match c with
              | Lt => (IZR (Zpos ma) * powerRZ 2 ea < IZR (Zpos mb) * powerRZ 2 eb)%R
              | Eq => (IZR (Zpos ma) * powerRZ 2 ea = IZR (Zpos mb) * powerRZ 2 eb)%R
              | Gt => (IZR (Zpos mb) * powerRZ 2 eb < IZR (Zpos ma) * powerRZ 2 ea)%R
              end).
    { intros <- c Hc. change (Pos.compare_cont Eq ma mb) with (Pos.compare ma mb) in Hc.
      destruct (Pos.compare_spec ma mb) as [->|Hl|Hg]; subst c.
      - reflexivity.
      - apply Rmult_lt_compat_r; [apply Pw | apply IZR_lt; lia].
      - apply Rmult_lt_compat_r; [apply Pw | apply IZR_lt; lia]. }
    assert (Cmp : match Z.compare ea eb with
                  | Lt => (IZR (Zpos ma) * powerRZ 2 ea < IZR (Zpos mb) * powerRZ 2 eb)%R
                  | Gt => (IZR (Zpos mb) * powerRZ 2 eb < IZR (Zpos ma) * powerRZ 2 ea)%R
                  | Eq => match Pos.compare_cont Eq ma mb with
                          | Lt => (IZR (Zpos ma) * powerRZ 2 ea < IZR (Zpos mb) * powerRZ 2 eb)%R
                          | Eq => (IZR (Zpos ma) * powerRZ 2 ea = IZR (Zpos mb) * powerRZ 2 eb)%R
                          | Gt => (IZR (Zpos mb) * powerRZ 2 eb < IZR (Zpos ma) * powerRZ 2 ea)%R
                          end
                  end).
    { destruct (Z.compare_spec ea eb) as [He|He|He].
      - apply (Eqv He). reflexivity.
      - apply finite_lt; assumption.
      - apply finite_lt; assumption. }
    destruct sa, sb; cbn [cond_Zopp];
      try (change (Z.neg ma) with (- Z.pos ma)); try (change (Z.neg mb) with (- Z.pos mb));
      rewrite ?opp_IZR; try lra.
    + destruct (Z.compare ea eb); [destruct (Pos.compare_cont Eq ma mb)| |]; cbn [CompOpp]; lra.
    + destruct (Z.compare ea eb); [destruct (Pos.compare_cont Eq ma mb)| |]; lra.
Qed.

End Order.

Lemma ltb_value (a b : float) :
  isFinite a -> isFinite b -> ((a <? b)%float = true <-> (value a < value b)%R).
Proof.
  intros Fa Fb. rewrite ltb_spec. unfold SFltb, value.
  generalize (@SFcompare_value (Prim2SF a) (Prim2SF b)
                (Prim2SF_valid a) (Prim2SF_valid b) Fa Fb).
  destruct (SFcompare (Prim2SF a) (Prim2SF b)) as [[| |]|]; intros Hc; split; intros Hl;
    try reflexivity; try discriminate; try contradiction; try lra.
Qed.

Lemma leb_value (a b : float) :
  isFinite a -> isFinite b -> ((a <=? b)%float = true <-> (value a <= value b)%R).
Proof.
  intros Fa Fb. rewrite leb_spec. unfold SFleb, value.
  generalize (@SFcompare_value (Prim2SF a) (Prim2SF b)
                (Prim2SF_valid a) (Prim2SF_valid b) Fa Fb).
  destruct (SFcompare (Prim2SF a) (Prim2SF b)) as [[| |]|]; intros Hc; split; intros Hl;
    try reflexivity; try discriminate; try contradiction; try lra.
Qed.

(** ** A sustained gesture, on doubles *)

Lemma Rabs_le_both (a b : R) : (Rabs a <= b)%R -> (- b <= a <= b)%R.
Proof. unfold Rabs. destruct (Rcase_abs a); lra. Qed.

Lemma ordinary_finite (c : float) : ordinary c -> isFinite c.
Proof.
  intros O. unfold isFinite.
  destruct (ordinary_cases O) as [(s & ->)|(s & m & e & -> & _)]; exact I.
Qed.

(** The values of the thresholds and of the margins. *)
Lemma value_thresholds :
  value lit_1_6 = (7205759403792794 * powerRZ 2 (-52))%R /\
  value lit_1_2 = (5404319552844595 * powerRZ 2 (-52))%R /\
  value 0x1.b333333333333p+0 = (7656119366529843 * powerRZ 2 (-52))%R /\
  value 0x1.199999999999ap+0 = (4953959590107546 * powerRZ 2 (-52))%R.
Proof. repeat split; reflexivity. Qed.

(** A smoothed ratio within the tolerance of a clearly open raw ratio opens
    the gate, or keeps it open. *)
Lemma gate_opens (open : bool) (m r : float) :
  closeTo m r -> isFinite r -> clearlyOpen r -> hysteresis open m = true.
Proof.
  intros (Fm & Cl) Fr Op. unfold clearlyOpen in Op.
  assert (F17 : isFinite 0x1.b333333333333p+0) by exact I.
  assert (F16 : isFinite lit_1_6) by exact I.
  assert (F12 : isFinite lit_1_2) by exact I.
  destruct value_thresholds as (V16 & V12 & V17 & _).
  apply (@leb_value _ _ F17 Fr) in Op. rewrite V17 in Op.
  assert (P : (0 < powerRZ 2 (-52))%R) by (apply powerRZ_lt; lra).
  set (p := powerRZ 2 (-52)) in *. unfold tolerance in Cl.
  rewrite (Rabs_pos_eq (value r)) in Cl by lra.
  apply Rabs_le_both in Cl.
  assert (H16 : (m >!? lit_1_6) = true).
  { apply (@ltb_value _ _ F16 Fm). rewrite V16. lra. }
  assert (H12 : (m <!? lit_1_2) = false).
  { destruct (m <!? lit_1_2) eqn:Lt; [|reflexivity]. exfalso.
    apply (@ltb_value _ _ Fm F12) in Lt. rewrite V12 in Lt. lra. }
  unfold hysteresis. rewrite H16, H12. destruct open; reflexivity.
Qed.

(** A smoothed ratio within the tolerance of a clearly closed raw ratio
    closes the gate, or keeps it closed. *)
Lemma gate_closes (open : bool) (m r : float) :
  closeTo m r -> isFinite r -> clearlyClosed r -> hysteresis open m = false.
Proof.
  intros (Fm & Cl) Fr Op. unfold clearlyClosed in Op.
  assert (F11 : isFinite 0x1.199999999999ap+0) by exact I.
  assert (F16 : isFinite lit_1_6) by exact I.
  assert (F12 : isFinite lit_1_2) by exact I.
  destruct value_thresholds as (V16 & V12 & _ & V11).
  apply (@leb_value _ _ Fr F11) in Op. rewrite V11 in Op.
  assert (P : (0 < powerRZ 2 (-52))%R) by (apply powerRZ_lt; lra).
  set (p := powerRZ 2 (-52)) in *. unfold tolerance in Cl.
  apply Rabs_le_both in Cl.
  assert (Up : (value m < 5404319552844595 * p)%R).
  { destruct (Rle_lt_dec 0 (value r)) as [Pos|Neg].
    - rewrite (Rabs_pos_eq (value r)) in Cl by lra. lra.
    - rewrite (Rabs_left (value r)) in Cl by lra. lra. }
  assert (H12 : (m <!? lit_1_2) = true).
  { apply (@ltb_value _ _ Fm F12). rewrite V12. exact Up. }
  assert (H16 : (m >!? lit_1_6) = false).
  { destruct (m >!? lit_1_6) eqn:Lt; [|reflexivity]. exfalso.
    apply (@ltb_value _ _ F16 Fm) in Lt. rewrite V16 in Lt. lra. }
  unfold hysteresis. rewrite H16, H12. destruct open; reflexivity.
Qed.

(** After at least five ticks that feed the raw ratio [r], the gate is in
    the state its test gives on the mean of five copies of [r], and the last
    signal carries it. *)
Lemma sustained_ratio_gate (ts : list (Tick float)) (s : Store float) (r : float) :
  bounded s ->
  Forall (feedsRatio r) ts -> (5 <= length ts)%nat ->
  exists (open : bool) gs g,
    isCurrentlyOpen (fst (run_ticks ts s)) = hysteresis open (smoothedRatio (repeat r 5)) /\
    gestures (snd (run_ticks ts s)) = gs ++ [g] /\
    isDetected g = true /\
    isOpen g = isCurrentlyOpen (fst (run_ticks ts s)).
Proof.
  intros B F L.
  destruct (constant_input_fills_buffers ts B) as (_ & Hr). specialize (Hr r F L).
  assert (N : ts <> []) by (intros ->; cbn in L; lia).
  destruct (exists_last N) as (ts' & t & ->).
  apply Forall_app in F. destruct F as (_ & F). inversion F as [|? ? (c & O) _]; subst.
  rewrite run_ticks_app in Hr |- *. cbn [fst snd] in Hr |- *.
  rewrite run_ticks_cons in Hr |- *. cbn [run_ticks fst snd] in Hr |- *.
  set (s' := fst (run_ticks ts' s)) in *.
  destruct (@processTick_observation _ _ t c r s' O) as (_ & Pr & g & Hg & Hd & _).
  destruct (@processTick_gate _ _ t s' (@observation_hasHand _ _ t _ O)) as (Hgate & Hsig).
  rewrite (@gateInput_observation _ _ t c r s' O), <- Pr, Hr in Hgate.
  exists (isCurrentlyOpen s'), (gestures (snd (run_ticks ts' s))), g.
  split; [exact Hgate|]. rewrite gestures_app, app_nil_r, Hg.
  split; [reflexivity|]. split; [exact Hd|].
  rewrite Hg in Hsig. inversion Hsig; assumption.
Qed.

(** X10.  On doubles, from a state with buffers within their capacities:
    after 5 or more consecutive observations that all feed the same raw
    ratio (zero or of magnitude between [2^-1000] and [2^1000]), the gate is
    open if that ratio is at least 1.7 and closed if it is at most 1.1,
    whatever it was before, and the last signal of the run carries that
    value. *)
Theorem sustained_gesture_sets_gate
    (ts : list (Tick float)) (s : Store float) (r : float) :
  bounded s ->
  Forall (feedsRatio r) ts -> (5 <= length ts)%nat ->
  ordinary r ->
  (clearlyOpen r ->
     isCurrentlyOpen (fst (run_ticks ts s)) = true /\
     exists gs g, gestures (snd (run_ticks ts s)) = gs ++ [g] /\
                  isDetected g = true /\ isOpen g = true) /\
  (clearlyClosed r ->
     isCurrentlyOpen (fst (run_ticks ts s)) = false /\
     exists gs g, gestures (snd (run_ticks ts s)) = gs ++ [g] /\
                  isDetected g = true /\ isOpen g = false).
Proof.
  intros B F L O.
  destruct (@sustained_ratio_gate ts s r B F L) as (open & gs & g & Hgate & Hg & Hd & Ho).
  assert (M : closeTo (smoothedRatio (repeat r 5)) r) by (apply mean_close; [lia | exact O]).
  assert (Fr := @ordinary_finite _ O).
  split; intros C.
  - rewrite (@gate_opens open _ _ M Fr C) in Hgate. split; [exact Hgate|].
    exists gs, g. rewrite Ho, Hgate. repeat split; assumption.
  - rewrite (@gate_closes open _ _ M Fr C) in Hgate. split; [exact Hgate|].
    exists gs, g. rewrite Ho, Hgate. repeat split; assumption.
Qed.

(** ** IEEE-754 doubles: comparisons *)

Lemma SFleb_SFltb (a b : spec_float) : SFleb a b = true -> SFltb b a = false.
Proof.
  unfold SFleb, SFltb.
  destruct a as [sa|sa| |sa ma ea], b as [sb|sb| |sb mb eb]; cbn;
    try destruct sa; try destruct sb; cbn; try congruence.
  - rewrite (Z.compare_antisym ea eb).
    destruct (ea ?= eb)%Z; cbn; try congruence.
    pose proof (Pos.compare_cont_antisym ma mb Eq) as A. cbn in A. rewrite <- A.
    destruct (Pos.compare_cont Eq ma mb); cbn; congruence.
  - rewrite (Z.compare_antisym ea eb).
    destruct (ea ?= eb)%Z; cbn; try congruence.
    pose proof (Pos.compare_cont_antisym ma mb Eq) as A. cbn in A. rewrite <- A.
    destruct (Pos.compare_cont Eq ma mb); cbn; congruence.
Qed.

Lemma leb_ltb (a b : float) : (a <=? b)%float = true -> (b <? a)%float = false.
Proof. rewrite leb_spec, ltb_spec. apply SFleb_SFltb. Qed.

(** On doubles the dead zone contains the closed interval (and [NaN]). *)
Lemma inDeadZone_between (r : float) :
  (lit_1_2 <=? r)%float = true -> (r <=? lit_1_6)%float = true -> inDeadZone r.
Proof.
  intros Lo Hi. split; [apply leb_ltb, Hi | apply leb_ltb, Lo].
Qed.

(** ** IEEE-754 doubles: a ratio that is not a number *)

Lemma add_NaN_l (a b : float) : isNaN a -> isNaN (a + b)%float.
Proof. unfold isNaN. intros A. rewrite add_spec, A. reflexivity. Qed.

Lemma add_NaN_r (a b : float) : isNaN b -> isNaN (a + b)%float.
Proof.
  unfold isNaN. intros B. rewrite add_spec, B. destruct (Prim2SF a); reflexivity.
Qed.

Lemma div_NaN_l (a b : float) : isNaN a -> isNaN (a / b)%float.
Proof. unfold isNaN. intros A. rewrite div_spec, A. reflexivity. Qed.

Lemma ltb_NaN_l (a b : float) : isNaN a -> (a <? b)%float = false.
Proof. unfold isNaN. intros A. rewrite ltb_spec, A. reflexivity. Qed.

Lemma ltb_NaN_r (a b : float) : isNaN b -> (a <? b)%float = false.
Proof.
  unfold isNaN. intros B. rewrite ltb_spec, B. destruct (Prim2SF a); reflexivity.
Qed.

Lemma sum_NaN (l : list float) :
  forall acc : float,
    isNaN acc \/ Exists isNaN l -> isNaN (fold_left PrimFloat.add l acc).
Proof.
  induction l as [|a l IH]; intros acc [A|E].
  - exact A.
  - inversion E.
  - cbn [fold_left]. apply IH. left. apply add_NaN_l, A.
  - cbn [fold_left]. apply IH. inversion E as [? ? Ha|? ? El]; subst.
    + left. apply add_NaN_r, Ha.
    + right. exact El.
Qed.

Lemma smoothedRatio_NaN (l : list float) : Exists isNaN l -> isNaN (smoothedRatio l).
Proof.
  intros E. unfold smoothedRatio. apply div_NaN_l.
  apply sum_NaN. right. exact E.
Qed.

Lemma inDeadZone_NaN (m : float) : isNaN m -> inDeadZone m.
Proof.
  intros M. split; [apply ltb_NaN_r, M | apply ltb_NaN_l, M].
Qed.

Lemma push_shift_keeps {A} (pre suf : list A) (n v : A) :
  (length suf <= 3)%nat ->
  exists pre', push_shift 5 (pre ++ n :: suf) v = pre' ++ n :: (suf ++ [v]).
Proof.
  intros L. unfold push_shift. rewrite <- app_assoc. cbn [app].
  rewrite length_app. cbn [length]. rewrite length_app. cbn [length].
  destruct (Nat.ltb_spec 5 (length pre + S (length suf + 1))) as [Hfull|Hroom].
  - destruct pre as [|p pre]; cbn [length] in Hfull; [lia|].
    exists pre. reflexivity.
  - exists pre. reflexivity.
Qed.

Lemma push_shift_snoc {A} (cap : nat) (a : list A) (v : A) :
  (0 < cap)%nat -> exists pre, push_shift cap a v = pre ++ [v].
Proof.
  intros C. unfold push_shift. rewrite length_app. cbn [length].
  destruct (Nat.ltb_spec cap (length a + 1)) as [Hfull|Hroom].
  - destruct a as [|p a]; cbn [length] in Hfull; [lia|]. exists a. reflexivity.
  - exists a. reflexivity.
Qed.

Lemma NaN_window_run (ts : list (Tick float)) :
  forall (obs : list (Point float * float)) (s : Store float) (pre suf : list float) (n : float),
    ratioHistory s = pre ++ n :: suf ->
    isNaN n ->
    Forall2 (fun t o => observation t = Some o) ts obs ->
    (length suf + length ts <= 4)%nat ->
    Forall inDeadZone (gateInputs ts s).
Proof.
  induction ts as [|t ts IH]; intros obs s pre suf n R N F L; [constructor|].
  inversion F as [|? o ? obs' O F']; subst. destruct o as [c r].
  cbn [length] in L. cbn [gateInputs].
  rewrite (@gateInput_observation _ _ t c r s O), R.
  destruct (@push_shift_keeps _ pre suf n r) as (pre' & K); [lia|].
  apply Forall_app. split.
  - constructor; [|constructor]. apply inDeadZone_NaN, smoothedRatio_NaN.
    rewrite K. apply Exists_app. right. constructor. exact N.
  - destruct (@processTick_observation _ _ t c r s O) as (_ & Hr & _).
    apply (IH obs' _ pre' (suf ++ [r]) n); try assumption.
    + rewrite Hr, R. exact K.
    + rewrite length_app. cbn [length]. lia.
Qed.

(** X13.  On doubles, a raw ratio that is [NaN] cannot move the gate.  On the
    tick that brings it and on the up to four observations after it, the
    [NaN] is among the last five raw ratios, their mean is [NaN], neither
    comparison holds, and the gate and the [isOpen] of every signal sent keep
    the value the gate had. *)
Theorem NaN_ratio_freezes_gate
    (t0 : Tick float) (ts : list (Tick float)) (c0 : Point float) (n : float)
    (obs : list (Point float * float)) (s : Store float) :
  observation t0 = Some (c0, n) ->
  isNaN n ->
  Forall2 (fun t o => observation t = Some o) ts obs ->
  (length ts <= 4)%nat ->
  isCurrentlyOpen (fst (run_ticks (t0 :: ts) s)) = isCurrentlyOpen s /\
  Forall (fun g => isOpen g = isCurrentlyOpen s) (gestures (snd (run_ticks (t0 :: ts) s))).
Proof.
  intros O N F L. apply gate_run.
  - constructor; [apply (observation_hasHand _ O)|].
    clear L. induction F as [|t o ts' obs' Ot _ IH]; constructor;
      [apply (observation_hasHand _ Ot) | exact IH].
  - cbn [gateInputs]. rewrite (@gateInput_observation _ _ t0 c0 n s O).
    destruct (@push_shift_snoc _ 5 (ratioHistory s) n) as (pre & K); [lia|].
    apply Forall_app. split.
    + constructor; [|constructor]. apply inDeadZone_NaN, smoothedRatio_NaN.
      rewrite K. apply Exists_app. right. constructor. exact N.
    + destruct (@processTick_observation _ _ t0 c0 n s O) as (_ & Hr & _).
      apply (@NaN_window_run ts obs _ pre [] n); try assumption.
      rewrite Hr. exact K.
Qed.

(** ** Concrete runs on IEEE-754 doubles *)

(** C1, as stated, fails: a run of seven misses from the fresh state sends
    the loss signal twice, on the 6th and again on the 7th miss. *)
Lemma loss_signal_sent_twice_in_seven_misses :
  gestures (snd (run_ticks (repeat no_hand 6) fresh)) = [lostSignal] /\
  gestures (snd (run_ticks (repeat no_hand 7) fresh)) = [lostSignal; lostSignal].
Proof. split; vm_compute; reflexivity. Qed.

(** Nine misses from the fresh state, and a tenth. *)
Lemma loss_signal_on_each_miss_past_five_run :
  gestures (snd (run_ticks (repeat no_hand 9) fresh)) = repeat lostSignal (9 - 5) /\
  gestures (snd (exec (processTick no_hand) (fst (run_ticks (repeat no_hand 9) fresh)))) =
    [lostSignal].
Proof.
  apply (@loss_signal_on_each_miss_past_five float float_number
           (repeat no_hand 9) no_hand fresh).
  - reflexivity.
  - repeat constructor.
  - reflexivity.
Defined.

(** Five misses and then a hand; six misses. *)
Lemma debounce_tolerance_run :
  (posHistory (fst (run_ticks (repeat no_hand 5) fresh)) = posHistory fresh /\
   ratioHistory (fst (run_ticks (repeat no_hand 5) fresh)) = ratioHistory fresh /\
   isCurrentlyOpen (fst (run_ticks (repeat no_hand 5) fresh)) = isCurrentlyOpen fresh /\
   fst (run_ticks (repeat no_hand 5 ++ [hand_tick]) fresh) = fst (run_ticks [hand_tick] fresh) /\
   gestures (snd (run_ticks (repeat no_hand 5 ++ [hand_tick]) fresh)) =
     gestures (snd (run_ticks [hand_tick] fresh))) /\
  (posHistory (fst (run_ticks (repeat no_hand 6) fresh)) = [] /\
   ratioHistory (fst (run_ticks (repeat no_hand 6) fresh)) = [] /\
   isCurrentlyOpen (fst (run_ticks (repeat no_hand 6) fresh)) = false).
Proof.
  apply (@debounce_tolerance float float_number (repeat no_hand 5) (repeat no_hand 6)
           hand_tick fresh).
  - reflexivity.
  - repeat constructor.
  - cbn. lia.
  - exists hand_at_8_240, []. reflexivity.
  - repeat constructor.
  - cbn. lia.
Defined.

(** C4, as stated, fails: the 6th miss declares the loss and leaves the
    counter at 6, and the 7th miss takes it to 7. *)
Lemma miss_counter_not_reset_at_threshold :
  missedFrames (fst (run_ticks (repeat no_hand 6) fresh)) = 6%nat /\
  missedFrames (fst (run_ticks (repeat no_hand 7) fresh)) = 7%nat.
Proof. split; vm_compute; reflexivity. Qed.

(** A hand, and seven misses, from the fresh state. *)
Lemma miss_counter_reset_only_by_observation_run :
  missedFrames (fst (exec (processTick hand_tick) fresh)) = 0%nat /\
  missedFrames (fst (run_ticks (repeat no_hand 7) fresh)) =
    (missedFrames fresh + length (repeat no_hand 7))%nat.
Proof.
  apply (@miss_counter_reset_only_by_observation float float_number
           hand_tick (repeat no_hand 7) fresh).
  - exists hand_at_8_240, []. reflexivity.
  - repeat constructor.
Defined.


(** Within the tolerance the smoothed output need not be the input itself.
    Eight consecutive ticks all feed the raw position of a wrist at pixel
    (8, 240) of a 640x480 video, whose [x] is 0.975; the eight-fold sum is
    rounded, and the smoothed [x] sent with the eighth signal is
    0.9749999999999999. *)
Example constant_position_rounded_on_doubles :
  Forall (feedsPosition (wrist_position)) (repeat hand_tick 8) /\
  x (wrist_position) = 0x1.f333333333333p-1%float /\
  map (fun g => x (position g))
      (skipn 7 (gestures (snd (run_ticks (repeat hand_tick 8) fresh)))) =
    [0x1.f333333333332p-1%float] /\
  PrimFloat.eqb 0x1.f333333333332p-1 0x1.f333333333333p-1 = false.
Proof.
  split; [|split; [|split]].
  - repeat constructor; eexists; vm_compute; reflexivity.
  - vm_compute. reflexivity.
  - vm_compute. reflexivity.
  - vm_compute. reflexivity.
Qed.


(** C8, as stated, fails on doubles.  A hand of 21 landmarks with finite
    coordinates, the wrist at the origin and the other landmarks at
    [(2^700, 2^700)]: the squares overflow, both average distances are
    [Infinity], and the ratio is [NaN], which is not at least 0. *)
Lemma openness_ratio_not_a_number_on_overflow :
  length (landmarks far_hand) = 21%nat /\
  Forall finiteLandmark (landmarks far_hand) /\
  exists r,
    rawRatio (lm 0 0) (landmarks far_hand) = Some r /\
    PrimFloat.is_nan r = true /\
    (0 <=? r)%float = false.
Proof.
  split; [reflexivity|]. split.
  - repeat (constructor; [split; vm_compute; exact I|]). constructor.
  - eexists. split; [vm_compute; reflexivity|]. split; vm_compute; reflexivity.
Qed.

(** A hand with its wrist at pixel (8, 240) and its other landmarks at
    pixel (20, 200): 21 landmarks, all with finite coordinates. *)
Lemma openness_ratio_well_defined_hand :
  Forall finiteLandmark (landmarks hand_at_8_240) /\
  (denominator (of_Z 0 : float) = of_Z 1 /\
   exists wrist totals,
     nth_error (landmarks hand_at_8_240) 0 = Some wrist /\
     totalDists wrist (landmarks hand_at_8_240) = Some totals /\
     truthy (denominator (fst totals /! of_Z 4)) = true /\
     rawRatio wrist (landmarks hand_at_8_240) = Some (ratioOf totals) /\
     (ratioOf totals <? 0)%float = false /\
     (Forall finiteLandmark (landmarks hand_at_8_240) ->
        (isNaN (ratioOf totals) <->
           snd totals /! of_Z 4 = infinity /\ fst totals /! of_Z 4 = infinity) /\
        (~ isNaN (ratioOf totals) -> (0 <=? ratioOf totals)%float = true))).
Proof.
  split.
  - repeat (constructor; [split; vm_compute; exact I|]). constructor.
  - apply (@openness_ratio_well_defined hand_at_8_240). reflexivity.
Defined.

(** Scenario C: the smoothed ratios stay in the dead zone and the gate,
    closed, stays closed. *)
Lemma hysteresis_gate_scenario_c :
  isCurrentlyOpen fresh = false /\
  (hysteresis false 2%float = true <-> (2%float >!? lit_1_6) = true) /\
  (hysteresis true 2%float = false <-> (2%float <!? lit_1_2) = true) /\
  isCurrentlyOpen (fst (exec (processTick (tick_with_tips 20)) fresh)) =
    match gateInput (tick_with_tips 20) fresh with
    | Some r' => hysteresis (isCurrentlyOpen fresh) r'
    | None => isCurrentlyOpen fresh
    end /\
  isCurrentlyOpen (fst (run_ticks scenario_c fresh)) = isCurrentlyOpen fresh /\
  Forall (fun g => isOpen g = isCurrentlyOpen fresh)
         (gestures (snd (run_ticks scenario_c fresh))).
Proof.
  apply (@hysteresis_gate float float_number scenario_c (tick_with_tips 20) fresh 2%float).
  - exists (hand_with_tips 20), []. reflexivity.
  - repeat constructor; eexists; eexists; reflexivity.
  - vm_compute. repeat constructor.
Defined.

(** A rejected estimate on the first frame. *)
Lemma estimate_failure_absorbed_frame :
  fst (fst (estimateHands (estimate (tick failing_frame)) fresh)) = Throw _ /\
  fst (fst (processTick (tick failing_frame) fresh)) = Normal tt /\
  fst (fst (runDetection failing_frame fresh)) = Normal tt /\
  snd (exec (runDetection failing_frame) fresh) =
    (if passes failing_frame fresh
     then [at_store EstimateHands (set_lastDetectionTime (now failing_frame) fresh);
           at_store RequestAnimationFrame (set_lastDetectionTime (now failing_frame) fresh)]
     else [at_store RequestAnimationFrame fresh]) /\
  missedFrames (fst (exec (runDetection failing_frame) fresh)) = missedFrames fresh /\
  posHistory (fst (exec (runDetection failing_frame) fresh)) = posHistory fresh /\
  ratioHistory (fst (exec (runDetection failing_frame) fresh)) = ratioHistory fresh /\
  isCurrentlyOpen (fst (exec (runDetection failing_frame) fresh)) = isCurrentlyOpen fresh /\
  gestures (snd (exec (runDetection failing_frame) fresh)) = [].
Proof.
  apply (@estimate_failure_absorbed float float_number failing_frame fresh).
  reflexivity.
Defined.

(** With both buffers full, one more detection. *)
Lemma history_buffers_bounded_after_nine_hands :
  bounded after_nine_hands /\
  bounded (fst (exec (runDetection (frame_at 2000 hand_tick)) after_nine_hands)) /\
  push_shift 8 (posHistory after_nine_hands) {| x := 0%float; y := 0%float |} =
    (if (length (posHistory after_nine_hands) =? 8)%nat
     then tl (posHistory after_nine_hands)
     else posHistory after_nine_hands) ++ [{| x := 0%float; y := 0%float |}] /\
  push_shift 5 (ratioHistory after_nine_hands) 2%float =
    (if (length (ratioHistory after_nine_hands) =? 5)%nat
     then tl (ratioHistory after_nine_hands)
     else ratioHistory after_nine_hands) ++ [2%float].
Proof.
  apply (@history_buffers_bounded float float_number after_nine_hands
           (frame_at 2000 hand_tick) {| x := 0%float; y := 0%float |} 2%float).
  exists (frames_of 9 hand_tick). reflexivity.
Defined.

(** The loss signal of the 6th miss. *)
Lemma loss_signal_after_reset_six_misses :
  @lostSignal float _ = lostSignal /\
  isCurrentlyOpen (seen loss_event) = false /\
  ratioHistory (seen loss_event) = [] /\
  posHistory (seen loss_event) = [].
Proof.
  apply (@loss_signal_after_reset float float_number (frames_of 6 no_hand) fresh
           loss_event lostSignal).
  - vm_compute. do 11 right. left. reflexivity.
  - reflexivity.
  - reflexivity.
Defined.

(** ** The scenarios of the specification, run on doubles *)

(** Scenario A: five raw ratios 2.0 from the fresh state; the gate is open. *)
Example scenario_a :
  map isOpen (gestures (snd (run_ticks (repeat (tick_with_tips 20) 5) fresh))) =
    [true; true; true; true; true] /\
  ratioHistory (fst (run_ticks (repeat (tick_with_tips 20) 5) fresh)) =
    [2; 2; 2; 2; 2]%float.
Proof. split; vm_compute; reflexivity. Qed.

(** Scenario B: five raw ratios 1.0 with the gate open; the gate closes. *)
Example scenario_b :
  isCurrentlyOpen
    (fst (run_ticks (repeat (tick_with_tips 10) 5) (set_isCurrentlyOpen true fresh))) =
    false.
Proof. vm_compute. reflexivity. Qed.

(** Rising edge: after five raw ratios 1.0, raw ratios 2.0 take the smoothed
    ratio through 1.2, 1.4, 1.6, 1.8; the gate opens on the fourth, the
    first above 1.6. *)
Example rising_edge :
  map isOpen
      (gestures (snd (run_ticks (repeat (tick_with_tips 10) 5 ++
                                 repeat (tick_with_tips 20) 5) fresh))) =
    [false; false; false; false; false; false; false; false; true; true].
Proof. vm_compute. reflexivity. Qed.

(** Scenario D: five misses, one detection, one more miss; the buffers hold
    the sample of the detection. *)
Example scenario_d :
  map (fun s : Store float => (length (posHistory s), length (ratioHistory s)))
      [fst (run_ticks (repeat no_hand 5 ++ [hand_tick; no_hand]) fresh)] =
    [(1, 1)%nat].
Proof. vm_compute. reflexivity. Qed.

(** Notifications every 16 ms: [estimateHands] is called on every fourth. *)
Example throttle_at_16_ms :
  invocations (snd (run_frames (frames_every 16 12 hand_tick) fresh)) =
    [1000; 1064; 1128]%Z.
Proof. vm_compute. reflexivity. Qed.

(** A detection at time 1000: a notification at 1016 is skipped, one at
    1064 is served, and over notifications every 16 ms the calls are spaced. *)
Lemma throttle_every_16_ms :
  exec (runDetection early_frame) just_detected =
    (just_detected, [at_store RequestAnimationFrame just_detected]) /\
  (exists tr,
     snd (exec (runDetection due_frame) just_detected) =
       at_store EstimateHands (set_lastDetectionTime (now due_frame) just_detected) :: tr /\
     invocations tr = [] /\
     lastDetectionTime (fst (exec (runDetection due_frame) just_detected)) = now due_frame) /\
  ForallOrdPairs apart
    (invocations (snd (run_frames (frames_every 16 12 hand_tick) just_detected))).
Proof.
  apply (@throttle float float_number (frames_every 16 12 hand_tick)
           early_frame due_frame just_detected).
  - reflexivity.
  - cbn. lia.
  - reflexivity.
  - cbn. lia.
Defined.

(** ** Further runs on IEEE-754 doubles *)

(** After a detection at 1000: two early notifications and one that finds
    the video not ready, between two that are served. *)
Lemma idle_frames_invisible_run :
  fst (run_frames [frame_at 1016 hand_tick; unready_frame; frame_at 1040 no_hand]
         (fst (run_frames [frame_at 1000 hand_tick] fresh))) =
    fst (run_frames [frame_at 1000 hand_tick] fresh) /\
  fst (run_frames ([frame_at 1000 hand_tick] ++
                   [frame_at 1016 hand_tick; unready_frame; frame_at 1040 no_hand] ++
                   [frame_at 1064 hand_tick]) fresh) =
    fst (run_frames ([frame_at 1000 hand_tick] ++ [frame_at 1064 hand_tick]) fresh) /\
  gestures (snd (run_frames ([frame_at 1000 hand_tick] ++
                   [frame_at 1016 hand_tick; unready_frame; frame_at 1040 no_hand] ++
                   [frame_at 1064 hand_tick]) fresh)) =
    gestures (snd (run_frames ([frame_at 1000 hand_tick] ++ [frame_at 1064 hand_tick]) fresh)) /\
  invocations (snd (run_frames ([frame_at 1000 hand_tick] ++
                   [frame_at 1016 hand_tick; unready_frame; frame_at 1040 no_hand] ++
                   [frame_at 1064 hand_tick]) fresh)) =
    invocations (snd (run_frames ([frame_at 1000 hand_tick] ++ [frame_at 1064 hand_tick]) fresh)).
Proof.
  apply (@idle_frames_invisible float float_number
           [frame_at 1000 hand_tick]
           [frame_at 1016 hand_tick; unready_frame; frame_at 1040 no_hand]
           [frame_at 1064 hand_tick] fresh).
  repeat constructor.
Defined.


(** Six misses after nothing, seven after nine detections; then a hand, a
    miss and a hand. *)
Lemma loss_erases_history_run :
  gestures (snd (run_ticks [hand_tick; no_hand; hand_tick]
                   (fst (run_ticks (repeat no_hand 6) fresh)))) =
    gestures (snd (run_ticks [hand_tick; no_hand; hand_tick]
                     (fst (run_ticks (repeat no_hand 7) after_nine_hands)))) /\
  posHistory (fst (run_ticks [hand_tick; no_hand; hand_tick]
                     (fst (run_ticks (repeat no_hand 6) fresh)))) =
    posHistory (fst (run_ticks [hand_tick; no_hand; hand_tick]
                       (fst (run_ticks (repeat no_hand 7) after_nine_hands)))) /\
  ratioHistory (fst (run_ticks [hand_tick; no_hand; hand_tick]
                       (fst (run_ticks (repeat no_hand 6) fresh)))) =
    ratioHistory (fst (run_ticks [hand_tick; no_hand; hand_tick]
                         (fst (run_ticks (repeat no_hand 7) after_nine_hands)))) /\
  isCurrentlyOpen (fst (run_ticks [hand_tick; no_hand; hand_tick]
                          (fst (run_ticks (repeat no_hand 6) fresh)))) =
    isCurrentlyOpen (fst (run_ticks [hand_tick; no_hand; hand_tick]
                            (fst (run_ticks (repeat no_hand 7) after_nine_hands)))).
Proof.
  apply (@loss_erases_history float float_number (repeat no_hand 6) (repeat no_hand 7)
           [hand_tick; no_hand; hand_tick] fresh after_nine_hands).
  - repeat constructor.
  - cbn. lia.
  - repeat constructor.
  - cbn. lia.
Defined.

(** Ten detections after nine: the first nine positions have left the
    window. *)
Lemma sliding_window_run_of_ten :
  posHistory (fst (run_ticks (repeat (tick_with_tips 20) 10) after_nine_hands)) =
    lastn 8 (posHistory after_nine_hands ++
             map fst (repeat (rawPosition 640%float 480%float (lm 0 0), 2%float) 10)) /\
  ratioHistory (fst (run_ticks (repeat (tick_with_tips 20) 10) after_nine_hands)) =
    lastn 5 (ratioHistory after_nine_hands ++
             map snd (repeat (rawPosition 640%float 480%float (lm 0 0), 2%float) 10)) /\
  length (gestures (snd (run_ticks (repeat (tick_with_tips 20) 10) after_nine_hands))) =
    length (repeat (tick_with_tips 20) 10).
Proof.
  apply (@sliding_window float float_number (repeat (tick_with_tips 20) 10)
           (repeat (rawPosition 640%float 480%float (lm 0 0), 2%float) 10)
           after_nine_hands).
  - split; vm_compute; lia.
  - repeat constructor; vm_compute; reflexivity.
Defined.

(** The signal of the first detection. *)
Lemma detected_signal_mirrors_refs_first :
  isOpen first_signal = isCurrentlyOpen (seen first_signal_event) /\
  position first_signal = smoothedPosition (posHistory (seen first_signal_event)) /\
  missedFrames (seen first_signal_event) = 0%nat /\
  posHistory (seen first_signal_event) <> [] /\
  ratioHistory (seen first_signal_event) <> [].
Proof.
  apply (@detected_signal_mirrors_refs float float_number (frames_of 1 hand_tick) fresh
           first_signal_event first_signal).
  - vm_compute. right. left. reflexivity.
  - vm_compute. reflexivity.
  - reflexivity.
Defined.

(** Three frames served before the cleanup, two after it. *)
Lemma cleanup_after_three_frames :
  fst (startLoop (mounted fresh 7)) = 7%nat /\
  pending (cleanup 7 (snd (startLoop (mounted fresh 7)))) = [] /\
  pending (cleanup 7 (animationFrames (frames_of 3 hand_tick)
                        (snd (startLoop (mounted fresh 7))))) =
    [(7 + length (frames_of 3 hand_tick))%nat] /\
  (7 + length (frames_of 3 hand_tick))%nat <> 7%nat /\
  refs (animationFrames [unready_frame; unready_frame]
          (cleanup 7 (animationFrames (frames_of 3 hand_tick)
                        (snd (startLoop (mounted fresh 7)))))) =
    fst (run_frames (frames_of 3 hand_tick ++ [unready_frame; unready_frame]) fresh).
Proof.
  apply (@cleanup_stops_only_unstarted_loop float float_number (frames_of 3 hand_tick)
           [unready_frame; unready_frame] fresh 7).
  discriminate.
Defined.

(** A hand whose fingertips are [NaN], then four hands with the raw ratio 2:
    the gate, closed, stays closed. *)
Lemma NaN_ratio_freezes_gate_run :
  isCurrentlyOpen (fst (run_ticks (nan_tick :: repeat (tick_with_tips 20) 4) fresh)) =
    isCurrentlyOpen fresh /\
  Forall (fun g => isOpen g = isCurrentlyOpen fresh)
         (gestures (snd (run_ticks (nan_tick :: repeat (tick_with_tips 20) 4) fresh))).
Proof.
  apply (@NaN_ratio_freezes_gate nan_tick (repeat (tick_with_tips 20) 4)
           (rawPosition 640%float 480%float (lm 0 0)) PrimFloat.nan
           (repeat (rawPosition 640%float 480%float (lm 0 0), 2%float) 4) fresh).
  - vm_compute. reflexivity.
  - vm_compute. reflexivity.
  - repeat constructor; vm_compute; reflexivity.
  - cbn. lia.
Defined.

(** Three copies of [hand_tick] from the fresh state. *)
Lemma constant_input_tracked_from_first_tick_run :
  posHistory (fst (run_ticks (repeat hand_tick 3) fresh)) =
    repeat wrist_position (Nat.min (length (repeat hand_tick 3)) 8) /\
  ratioHistory (fst (run_ticks (repeat hand_tick 3) fresh)) =
    repeat 1%float (Nat.min (length (repeat hand_tick 3)) 5) /\
  length (gestures (snd (run_ticks (repeat hand_tick 3) fresh))) =
    length (repeat hand_tick 3) /\
  Forall (fun g => isDetected g = true /\
                   closeTo (x (position g)) (x wrist_position) /\
                   closeTo (y (position g)) (y wrist_position))
         (gestures (snd (run_ticks (repeat hand_tick 3) fresh))) /\
  Forall (fun m => closeTo m 1%float) (gateInputs (repeat hand_tick 3) fresh).
Proof.
  apply (@constant_input_tracked_from_first_tick (repeat hand_tick 3) fresh
           wrist_position 1%float).
  - reflexivity.
  - reflexivity.
  - repeat constructor; vm_compute; reflexivity.
  - right. split; vm_compute; reflexivity.
  - left. vm_compute. reflexivity.
  - right. split; vm_compute; reflexivity.
Defined.

(** Five raw ratios 2.0 with the gate closed: a clearly open hand. *)
Lemma sustained_gesture_sets_gate_run :
  clearlyOpen 2%float /\
  ((clearlyOpen 2%float ->
      isCurrentlyOpen (fst (run_ticks (repeat (tick_with_tips 20) 5) fresh)) = true /\
      exists gs g, gestures (snd (run_ticks (repeat (tick_with_tips 20) 5) fresh)) = gs ++ [g] /\
                   isDetected g = true /\ isOpen g = true) /\
   (clearlyClosed 2%float ->
      isCurrentlyOpen (fst (run_ticks (repeat (tick_with_tips 20) 5) fresh)) = false /\
      exists gs g, gestures (snd (run_ticks (repeat (tick_with_tips 20) 5) fresh)) = gs ++ [g] /\
                   isDetected g = true /\ isOpen g = false)).
Proof.
  split; [vm_compute; reflexivity|].
  apply (@sustained_gesture_sets_gate (repeat (tick_with_tips 20) 5) fresh 2%float).
  - split; cbn; lia.
  - repeat constructor; eexists; vm_compute; reflexivity.
  - cbn. lia.
  - right. split; vm_compute; reflexivity.
Defined.
